(** * magic-crayon: the projection and deformation geometry of [Ground.ts]

    A shallow embedding of the two classes of [src/Ground.ts], [Ground] and
    [Billboard], and the properties of their mesh buffers.

    JavaScript numbers are IEEE 754 binary64 values: they are modelled by
    Rocq's primitive [float], whose operations are the same correctly rounded
    binary64 operations, so every definition below evaluates exactly as the
    TypeScript does.  Numbers that the source only uses as array lengths and
    array indices (all far below 2^53, where binary64 arithmetic on integers
    is exact) are modelled by [nat] and [Z]. *)

From Stdlib Require Import ZArith List Bool Lia Floats Uint63.
Import ListNotations.

Set Warnings "-inexact-float".

(** ** JavaScript numbers and exceptions *)

Module JS.

Definition number := float.

(** The relational operators of the language on numbers. *)
Definition le (a b : number) : bool := (a <=? b)%float.
Definition lt (a b : number) : bool := (a <? b)%float.
Definition gt (a b : number) : bool := (b <? a)%float.
Definition ge (a b : number) : bool := (b <=? a)%float.
(** [a === b] on numbers, and [a != b]. *)
Definition eq (a b : number) : bool := (a =? b)%float.
Definition neq (a b : number) : bool := negb (a =? b)%float.

(** [x || d] on numbers: [0], [-0] and [NaN] are falsy. *)
Definition or_else (x d : number) : number :=
  if (x =? 0)%float || is_nan x then d else x.

(** [Math.sqrt], the correctly rounded square root that the engines compute. *)
Definition Math_sqrt (x : number) : number := PrimFloat.sqrt x.

(** [Math.max(a, b)]: [NaN] if either argument is, [+0] above [-0]. *)
Definition Math_max (a b : number) : number :=
  if is_nan a || is_nan b then nan
  else if (a <? b)%float then b
  else if (b <? a)%float then a
  else if get_sign a then b else a.

(** An array length or a loop counter as a number. *)
Definition of_nat (n : nat) : number := of_uint63 (Uint63.of_Z (Z.of_nat n)).

(** Exceptions: reading a property of [undefined] throws a [TypeError]. *)
Inductive error := TypeError.

Inductive result (A : Type) : Type :=
| Ok (a : A)
| Throw (e : error).
Arguments Ok {A} a.
Arguments Throw {A} e.

Definition bind {A B} (r : result A) (k : A -> result B) : result B :=
  match r with
  | Ok a => k a
  | Throw e => Throw e
  end.

(** [for (const x of xs) ...] over a body that may throw. *)
Fixpoint mapM {A B} (f : A -> result B) (xs : list A) : result (list B) :=
  match xs with
  | [] => Ok []
  | x :: xs' =>
      bind (f x) (fun y => bind (mapM f xs') (fun ys => Ok (y :: ys)))
  end.

(** [for (let i = i0; i <= hi; i += inc) body(i)] on numbers.  The loop
    variable is a binary64 value, so the number of iterations is whatever
    the rounded additions give; [None] is an exhausted step budget. *)
Fixpoint for_le {S : Type} (fuel : nat) (i hi inc : number)
         (body : number -> S -> option S) (s : S) : option S :=
  match fuel with
  | O => None
  | Datatypes.S fuel' =>
      if le i hi then
        match body i s with
        | Some s' => for_le fuel' (i + inc)%float hi inc body s'
        | None => None
        end
      else Some s
  end.

(** The values the loop variable of [for_le] takes. *)
Fixpoint for_le_values (fuel : nat) (i hi inc : number) : option (list number) :=
  match fuel with
  | O => None
  | Datatypes.S fuel' =>
      if le i hi then
        match for_le_values fuel' (i + inc)%float hi inc with
        | Some vs => Some (i :: vs)
        | None => None
        end
      else Some []
  end.

(** A number is NaN, is a zero or NaN: stated on the specification value of
    the binary64 number. *)
Definition SFzero_or_nan (a : spec_float) : Prop :=
  match a with
  | S754_zero _ | S754_nan => True
  | _ => False
  end.
Definition NaN (f : number) : Prop := Prim2SF f = S754_nan.
Definition zero_or_NaN (f : number) : Prop := SFzero_or_nan (Prim2SF f).

(** A number is [+0] or [-0]; is neither NaN nor an infinity. *)
Definition Zero (f : number) : Prop :=
  match Prim2SF f with
  | S754_zero _ => True
  | _ => False
  end.

End JS.

Notation "x <- r ;; k" := (JS.bind r (fun x => k))
  (at level 61, r at next level, right associativity).

(** ** The part of three.js the two classes call

    three.js is an external library.  Its vector, plane and ray arithmetic is
    fixed by its documentation and is written out here operation by operation;
    the camera, the scene graph and the transcendental functions are taken as
    an interface ([Host]). *)

Module THREE.

Local Open Scope float_scope.

Record Vector2 := vec2 { x2 : float; y2 : float }.
Record Vector3 := vec3 { x : float; y : float; z : float }.
(** Every Euler triple here has three.js's default order, XYZ. *)
Record Euler := euler { ex : float; ey : float; ez : float }.
Record Quaternion := quat { qx : float; qy : float; qz : float; qw : float }.
Record Matrix4 := mat4 { elements : list float }.

(** [new THREE.Vector2()], [new THREE.Vector3()]. *)
Definition Vector2_zero : Vector2 := vec2 0 0.
Definition Vector3_zero : Vector3 := vec3 0 0 0.

(** [Vector2] *)
Definition Vector2_subVectors (a b : Vector2) : Vector2 :=
  vec2 (x2 a - x2 b) (y2 a - y2 b).
Definition Vector2_addVectors (a b : Vector2) : Vector2 :=
  vec2 (x2 a + x2 b) (y2 a + y2 b).
Definition Vector2_multiplyScalar (v : Vector2) (s : float) : Vector2 :=
  vec2 (x2 v * s) (y2 v * s).
Definition Vector2_length (v : Vector2) : float :=
  JS.Math_sqrt (x2 v * x2 v + y2 v * y2 v).
Definition Vector2_divideScalar (v : Vector2) (s : float) : Vector2 :=
  Vector2_multiplyScalar v (1 / s).
Definition Vector2_normalize (v : Vector2) : Vector2 :=
  Vector2_divideScalar v (JS.or_else (Vector2_length v) 1).
Definition Vector2_distanceToSquared (a b : Vector2) : float :=
  let dx := (x2 a - x2 b)%float in
  let dy := (y2 a - y2 b)%float in
  (dx * dx + dy * dy)%float.
Definition Vector2_distanceTo (a b : Vector2) : float :=
  JS.Math_sqrt (Vector2_distanceToSquared a b).

(** [Vector3] *)
Definition subVectors (a b : Vector3) : Vector3 :=
  vec3 (x a - x b) (y a - y b) (z a - z b).
Definition crossVectors (a b : Vector3) : Vector3 :=
  vec3 (y a * z b - z a * y b)
       (z a * x b - x a * z b)
       (x a * y b - y a * x b).
Definition dot (a b : Vector3) : float :=
  (x a * x b + y a * y b + z a * z b)%float.
Definition multiplyScalar (v : Vector3) (s : float) : Vector3 :=
  vec3 (x v * s) (y v * s) (z v * s).
Definition length (v : Vector3) : float :=
  JS.Math_sqrt (x v * x v + y v * y v + z v * z v).
Definition divideScalar (v : Vector3) (s : float) : Vector3 :=
  multiplyScalar v (1 / s).
Definition normalize (v : Vector3) : Vector3 :=
  divideScalar v (JS.or_else (length v) 1).
(** [target.copy(p).addScaledVector(v, s)] *)
Definition addScaledVector (p v : Vector3) (s : float) : Vector3 :=
  vec3 (x p + x v * s) (y p + y v * s) (z p + z v * s).

Record Plane := mkPlane { normal : Vector3; constant : float }.
Record Ray := mkRay { origin : Vector3; direction : Vector3 }.
Record Sphere := mkSphere { center : Vector3; radius : float }.

Definition setFromNormalAndCoplanarPoint (n point : Vector3) : Plane :=
  mkPlane n (- dot point n).
Definition distanceToPoint (p : Plane) (point : Vector3) : float :=
  (dot (normal p) point + constant p)%float.
Definition projectPoint (p : Plane) (point : Vector3) : Vector3 :=
  addScaledVector point (normal p) (- distanceToPoint p point).

Definition at_ (r : Ray) (t : float) : Vector3 :=
  addScaledVector (origin r) (direction r) t.

(** [ray.distanceToPlane(plane)]; [None] is the [null] result. *)
Definition distanceToPlane (r : Ray) (p : Plane) : option float :=
  let denominator := dot (normal p) (direction r) in
  if JS.eq denominator 0 then
    if JS.eq (distanceToPoint p (origin r)) 0 then Some 0%float else None
  else
    let t := (- (dot (origin r) (normal p) + constant p) / denominator)%float in
    if JS.ge t 0 then Some t else None.

(** [ray.intersectPlane(plane, target)] writes the hit into [target] and
    returns it, or returns [null] and leaves [target] as it was.  The pair is
    the returned value and the final content of [target]. *)
Definition intersectPlane (r : Ray) (p : Plane) (target : Vector3)
  : option Vector3 * Vector3 :=
  match distanceToPlane r p with
  | None => (None, target)
  | Some t => (Some (at_ r t), at_ r t)
  end.

(** [ray.intersectSphere(sphere, target)], same convention. *)
Definition intersectSphere (r : Ray) (s : Sphere) (target : Vector3)
  : option Vector3 * Vector3 :=
  let v := subVectors (center s) (origin r) in
  let tca := dot v (direction r) in
  let d2 := (dot v v - tca * tca)%float in
  let radius2 := (radius s * radius s)%float in
  if JS.gt d2 radius2 then (None, target)
  else
    let thc := JS.Math_sqrt (radius2 - d2) in
    let t0 := (tca - thc)%float in
    let t1 := (tca + thc)%float in
    if JS.lt t1 0 then (None, target)
    else if JS.lt t0 0 then (Some (at_ r t1), at_ r t1)
    else (Some (at_ r t0), at_ r t0).

Definition Matrix4_identity : Matrix4 :=
  mat4 [1; 0; 0; 0;  0; 1; 0; 0;  0; 0; 1; 0;  0; 0; 0; 1]%float.

(** What the classes take from the engine and the scene graph. *)
Record Host := {
  Math_cos : float -> float;
  Math_sin : float -> float;
  Math_pow : float -> float -> float;
  Camera : Type;
  (** [raycaster.setFromCamera(point, camera); raycaster.ray] *)
  setFromCamera : Vector2 -> Camera -> Ray;
  camera_position : Camera -> Vector3;
  camera_rotation : Camera -> Euler;
  camera_quaternion : Camera -> Quaternion;
  camera_projectionMatrixInverse : Camera -> Matrix4;
  applyQuaternion : Vector3 -> Quaternion -> Vector3;
  (** [obj.lookAt(target)] for an object at [position] with [rotation]:
      the rotation it ends with. *)
  lookAt : Vector3 -> Euler -> Vector3 -> Euler;
  (** [m.makeRotationFromEuler(e)] and [m.invert()], from the receiver. *)
  makeRotationFromEuler : Matrix4 -> Euler -> Matrix4;
  Matrix4_invert : Matrix4 -> Matrix4;
  (** A scene object seen from outside, and its [worldToLocal]. *)
  Object3D : Type;
  worldToLocal : Object3D -> Vector3 -> Vector3
}.

(** [v.rotateAround(center, angle)] *)
Definition Vector2_rotateAround (h : Host) (v center : Vector2) (angle : float)
  : Vector2 :=
  let c := Math_cos h angle in
  let s := Math_sin h angle in
  let x := (x2 v - x2 center)%float in
  let y := (y2 v - y2 center)%float in
  vec2 (x * c - y * s + x2 center) (x * s + y * c + y2 center).

End THREE.

Import THREE.

(** ** class Ground *)

Module Ground.

(** The flat [number[]] of the source, stride 3, is kept as a list of
    triples: every [push] appends whole triples and every read is at
    [i*3], [i*3+1], [i*3+2]. *)
Record t := mk {
  segments : nat;
  vertices : list Vector3;
  (** the [normal] attribute and the index buffer handed to the geometry *)
  normals : list Vector3;
  indices : list nat
}.

Definition convertRowColToIndex (segments row col : nat) : nat :=
  row * (segments + 1) + col.

(** The six indices pushed for grid cell [(i, j)]. *)
Definition cell (segments i j : nat) : list nat :=
  [ convertRowColToIndex segments i j;
    convertRowColToIndex segments i (j + 1);
    convertRowColToIndex segments (i + 1) j;
    convertRowColToIndex segments (i + 1) j;
    convertRowColToIndex segments i (j + 1);
    convertRowColToIndex segments (i + 1) (j + 1) ].

(** [for i in 0..segments-1, for j in 0..segments-1: push the cell]. *)
Definition grid_indices (segments : nat) : list nat :=
  fold_left
    (fun acc i =>
       fold_left (fun acc j => acc ++ cell segments i j) (seq 0 segments) acc)
    (seq 0 segments) [].

(** The two nested loops over [i] and [j] from [-size/2] while
    [<= size/2], pushing one vertex and one normal each. *)
Definition grid_vertices (fuel : nat) (size : float) (segments : nat)
  : option (list Vector3 * list Vector3) :=
  let increment := (size / JS.of_nat segments)%float in
  JS.for_le fuel (- size / 2)%float (size / 2)%float increment
    (fun i =>
       JS.for_le fuel (- size / 2)%float (size / 2)%float increment
         (fun j '(vs, ns) => Some (vs ++ [vec3 i 0 j], ns ++ [vec3 0 1 0])))
    ([], []).

(** [new Ground(size, segments)] *)
Definition constructor (fuel : nat) (size : float) (segments : nat) : option t :=
  match grid_vertices fuel size segments with
  | None => None
  | Some (vs, ns) => Some (mk segments vs ns (grid_indices segments))
  end.

(** The loop variable of [new Ground(1, 11)] after eleven steps
    [i += 1/11] from [-0.5]. *)
Definition twelfth_step : float :=
  fold_left (fun i _ => (i + 1 / 11)%float) (seq 0 11) (- 1 / 2)%float.

Section Reshape.
Local Open Scope float_scope.
Variable h : Host.

(** Step 1 of [reshapeGround]: the plane through the stroke's ground
    points, lines 87-90. *)
Definition reshapePlane (groundStartPoint groundEndPoint : Vector3) : Plane :=
  let SE := subVectors groundEndPoint groundStartPoint in
  let up := vec3 0 1 0 in
  let n := normalize (crossVectors SE up) in
  setFromNormalAndCoplanarPoint n groundStartPoint.

(** What one iteration of the loop of lines 100-108 pushes. *)
Definition sample (reshapePlane : Plane) (camera : Camera h) (p : Vector2)
  : Vector3 :=
  let point := vec2 (x2 p) (y2 p) in
  let ray := setFromCamera h point camera in
  let intersection := Vector3_zero in
  snd (intersectPlane ray reshapePlane intersection).

(** Step 2: the loop itself, pushing onto [silhouetteCurve]. *)
Definition silhouette (screenPath : list Vector2) (reshapePlane : Plane)
           (camera : Camera h) : list Vector3 :=
  fold_left (fun silhouetteCurve p =>
               silhouetteCurve ++ [sample reshapePlane camera p])
            screenPath [].

(** The plane-space x of a point, as lines 170, 173 and 174 compute it. *)
Definition planeSpaceX (origin planeX p : Vector3) : float :=
  dot (subVectors p origin) planeX.

(** The body of the loop of [computeH] for the indices [idxs]; falling out
    of the loop returns [0]. *)
Fixpoint computeH_scan (closestPoint origin planeX : Vector3)
         (silhouetteCurve : list Vector3) (idxs : list nat) : float :=
  match idxs with
  | [] => 0
  | i :: rest =>
      let xTarget := planeSpaceX origin planeX closestPoint in
      let p0 := nth (i - 1) silhouetteCurve Vector3_zero in
      let p1 := nth i silhouetteCurve Vector3_zero in
      let xStart := planeSpaceX origin planeX p0 in
      let xEnd := planeSpaceX origin planeX p1 in
      if JS.le xStart xTarget && JS.le xTarget xEnd then
        let alpha := (xTarget - xStart) / (xEnd - xStart) in
        let yCurve := y p0 + alpha * (y p1 - y p0) in
        yCurve - y closestPoint
      else if JS.le xEnd xTarget && JS.le xTarget xStart then
        let alpha := (xTarget - xEnd) / (xStart - xEnd) in
        let yCurve := y p1 + alpha * (y p0 - y p1) in
        yCurve - y closestPoint
      else computeH_scan closestPoint origin planeX silhouetteCurve rest
  end.

(** [computeH]: with an empty curve [silhouetteCurve[0]] is [undefined]
    and [subVectors(closestPoint, origin)] throws. *)
Definition computeH (closestPoint : Vector3) (silhouetteCurve : list Vector3)
           (projectionPlane : Plane) : JS.result float :=
  let planeY := vec3 0 1 0 in
  let planeX := normalize (crossVectors planeY (normal projectionPlane)) in
  match silhouetteCurve with
  | [] => JS.Throw JS.TypeError
  | origin :: _ =>
      JS.Ok (computeH_scan closestPoint origin planeX silhouetteCurve
                           (seq 1 (List.length silhouetteCurve - 1)))
  end.

(** The falloff weight of line 124. *)
Definition weight (reshapePlane : Plane) (v : Vector3) : float :=
  let d := distanceToPoint reshapePlane v in
  JS.Math_max 0 (1 - Math_pow h (d / 5) 2).

(** One iteration of the loop of lines 117-130 on vertex [v]. *)
Definition reshapeVertex (reshapePlane : Plane)
           (silhouetteCurve : list Vector3) (v : Vector3)
  : JS.result Vector3 :=
  let closestPointOnPlane := projectPoint reshapePlane v in
  let w := weight reshapePlane v in
  hh <- computeH closestPointOnPlane silhouetteCurve reshapePlane ;;
  if JS.neq hh 0 then JS.Ok (vec3 (x v) ((1 - w) * y v + w * hh) (z v))
  else JS.Ok v.

(** [reshapeGround].  A throw can only come from an empty curve and then
    comes at the first vertex, before any write.  The recomputed normals
    and the edge mesh are the renderer's. *)
Definition reshapeGround (g : t) (screenPath : list Vector2)
           (groundStartPoint groundEndPoint : Vector3) (camera : Camera h)
  : JS.result t :=
  let reshapePlane := reshapePlane groundStartPoint groundEndPoint in
  let silhouetteCurve := silhouette screenPath reshapePlane camera in
  vs <- JS.mapM (reshapeVertex reshapePlane silhouetteCurve) (vertices g) ;;
  JS.Ok (mk (segments g) vs (normals g) (indices g)).

(** *** The scan of [computeH] as the specification words it

    "Scan consecutive pairs of the silhouette curve in order; for the first
    pair whose plane-local X interval brackets xTarget (ascending, then
    descending) interpolate the curve's world Y at the bracketing fraction
    and return interpolatedY - closestPoint.y; if no segment brackets, 0." *)
Definition consecutivePairs (curve : list Vector3) : list (Vector3 * Vector3) :=
  combine curve (tl curve).

Definition bracketsAscending (xTarget xStart xEnd : float) : bool :=
  JS.le xStart xTarget && JS.le xTarget xEnd.
Definition bracketsDescending (xTarget xStart xEnd : float) : bool :=
  JS.le xEnd xTarget && JS.le xTarget xStart.

Definition brackets (origin planeX : Vector3) (xTarget : float)
           (pr : Vector3 * Vector3) : bool :=
  let xStart := planeSpaceX origin planeX (fst pr) in
  let xEnd := planeSpaceX origin planeX (snd pr) in
  bracketsAscending xTarget xStart xEnd || bracketsDescending xTarget xStart xEnd.

(** The curve's Y at [xTarget] on the segment [pr], by the fraction [alpha]
    measured from the lower end of the bracket. *)
Definition interpolatedY (origin planeX : Vector3) (xTarget : float)
           (pr : Vector3 * Vector3) : float :=
  let xStart := planeSpaceX origin planeX (fst pr) in
  let xEnd := planeSpaceX origin planeX (snd pr) in
  if bracketsAscending xTarget xStart xEnd then
    let alpha := (xTarget - xStart) / (xEnd - xStart) in
    y (fst pr) + alpha * (y (snd pr) - y (fst pr))
  else
    let alpha := (xTarget - xEnd) / (xStart - xEnd) in
    y (snd pr) + alpha * (y (fst pr) - y (snd pr)).

(** The plane-space frame of step 3: [planeX], and the curve's first point. *)
Definition planeXAxis (projectionPlane : Plane) : Vector3 :=
  normalize (crossVectors (vec3 0 1 0) (normal projectionPlane)).

Definition firstBracketing (closestPoint : Vector3) (curve : list Vector3)
           (projectionPlane : Plane) : option (Vector3 * Vector3) :=
  let origin := hd Vector3_zero curve in
  let planeX := planeXAxis projectionPlane in
  find (brackets origin planeX (planeSpaceX origin planeX closestPoint))
       (consecutivePairs curve).

(** [computeH] in these words. *)
Definition computeH_spec (closestPoint : Vector3) (curve : list Vector3)
           (projectionPlane : Plane) : float :=
  let origin := hd Vector3_zero curve in
  let planeX := planeXAxis projectionPlane in
  match firstBracketing closestPoint curve projectionPlane with
  | Some pr =>
      interpolatedY origin planeX (planeSpaceX origin planeX closestPoint) pr
      - y closestPoint
  | None => 0
  end.

(** The plane-local X coordinates of the curve's points. *)
Definition curveX (curve : list Vector3) (projectionPlane : Plane) : list float :=
  let origin := hd Vector3_zero curve in
  map (planeSpaceX origin (planeXAxis projectionPlane)) curve.

Definition targetX (closestPoint : Vector3) (curve : list Vector3)
           (projectionPlane : Plane) : float :=
  planeSpaceX (hd Vector3_zero curve) (planeXAxis projectionPlane) closestPoint.

End Reshape.

(** The ray of a screen sample, as line 103 sets it. *)
Definition sampleRay (h : Host) (camera : Camera h) (p : Vector2) : Ray :=
  setFromCamera h (vec2 (x2 p) (y2 p)) camera.

(** A ray parallel to the plane and off it: zero denominator, origin not on
    the plane. *)
Definition parallelOff (r : Ray) (p : Plane) : bool :=
  JS.eq (dot (normal p) (direction r)) 0%float
  && negb (JS.eq (distanceToPoint p (origin r)) 0%float).

(** *** The grid cell on (row, column) pairs

    The corners of cell [(i, j)] and the directed edges of its two
    triangles, before [convertRowColToIndex] numbers them. *)
Definition rowCol (segments : nat) (p : nat * nat) : nat :=
  convertRowColToIndex segments (fst p) (snd p).

Definition cellCorners (i j : nat) : list (nat * nat) :=
  [ (i, j); (i, j + 1); (i + 1, j);
    (i + 1, j); (i, j + 1); (i + 1, j + 1) ].

(** Two grounds with the same segment count, position buffer and index
    buffer.  (The normal attribute is recomputed by the geometry after every
    reshape and is not compared.) *)
Definition sameBuffers (g g' : t) : Prop :=
  segments g' = segments g /\ vertices g' = vertices g /\
  indices g' = indices g.

(** The index loops of the constructor on (row, column) pairs. *)
Definition gridCorners (segments : nat) : list (nat * nat) :=
  flat_map (fun i => flat_map (cellCorners i) (seq 0 segments)) (seq 0 segments).

End Ground.

(** ** class Billboard *)

Module Billboard.

Local Open Scope float_scope.

(** The fields of the class, with the three pieces of [Object3D] state its
    methods write: the billboard's [position] and [rotation], and the local
    matrix of its mesh.  The vertex buffer is a list of triples, as in
    [Ground].  Indices are integers ([nextIndex - 2] is below zero when fewer
    than two vertices exist).  The geometry's attributes are copies of
    [vertices] and [indices] made for the renderer after each change, and its
    bounding sphere is the renderer's: they are not part of the state. *)
Record t := mk {
  strokeWidth : float;
  screenPath : list Vector2;
  worldOrigin : Vector3;
  vertices : list Vector3;
  indices : list Z;
  position : Vector3;
  rotation : Euler;
  mesh_matrix : Matrix4
}.

(** [new Billboard(deviceCoords, worldOrigin, color, strokeWidth)]; the
    colour only reaches the material. *)
Definition constructor (deviceCoords : Vector2) (worldOrigin : Vector3)
           (strokeWidth : float) : t :=
  {| strokeWidth := strokeWidth;
     worldOrigin := vec3 (x worldOrigin) (y worldOrigin) (z worldOrigin);
     screenPath := [] ++ [vec2 (x2 deviceCoords) (y2 deviceCoords)];
     vertices := ([] ++ [vec3 (x2 deviceCoords) (y2 deviceCoords) (-0.999)])
                   ++ [vec3 (x2 deviceCoords) (y2 deviceCoords) (-0.999)];
     indices := [];
     position := Vector3_zero;
     rotation := euler 0 0 0;
     mesh_matrix := Matrix4_identity |}.

Definition Math_PI : float := 3.141592653589793.

Section Methods.
Variable h : Host.

(** [screenPath[screenPath.length - 1]]: [undefined] on an empty path. *)
Definition lastPoint (b : t) : option Vector2 :=
  nth_error (screenPath b) (List.length (screenPath b) - 1).

Definition addNewPoint (b : t) (deviceCoords : Vector2) : JS.result t :=
  let newPoint := vec2 (x2 deviceCoords) (y2 deviceCoords) in
  match lastPoint b with
  | None => JS.Throw JS.TypeError
  | Some endPoint =>
      if JS.gt (Vector2_distanceTo newPoint endPoint) (strokeWidth b / 2) then
        let strokeVector := Vector2_subVectors newPoint endPoint in
        let strokeVector := Vector2_normalize strokeVector in
        let strokeVector :=
          Vector2_rotateAround h strokeVector Vector2_zero (Math_PI / 2) in
        let strokeVector :=
          Vector2_multiplyScalar strokeVector (strokeWidth b / 2) in
        let vertex1 := Vector2_subVectors newPoint strokeVector in
        let vertex2 := Vector2_addVectors newPoint strokeVector in
        let nextIndex := Z.of_nat (List.length (vertices b)) in
        JS.Ok {| strokeWidth := strokeWidth b;
                 worldOrigin := worldOrigin b;
                 vertices := (vertices b
                                ++ [vec3 (x2 vertex1) (y2 vertex1) (-0.999)])
                               ++ [vec3 (x2 vertex2) (y2 vertex2) (-0.999)];
                 indices := (indices b
                               ++ [nextIndex; nextIndex + 1; nextIndex - 2]%Z)
                              ++ [nextIndex - 1; nextIndex - 2; nextIndex + 1]%Z;
                 screenPath := screenPath b ++ [newPoint];
                 position := position b;
                 rotation := rotation b;
                 mesh_matrix := mesh_matrix b |}
      else JS.Ok b
  end.

(** A run of [addNewPoint] calls, stopping at the first throw. *)
Definition addPoints (b : t) (ps : list Vector2) : JS.result t :=
  fold_left (fun r p => b' <- r ;; addNewPoint b' p) ps (JS.Ok b).

Definition projectToNearPlane (b : t) (camera : Camera h) : t :=
  {| strokeWidth := strokeWidth b; screenPath := screenPath b;
     worldOrigin := worldOrigin b;
     vertices := vertices b; indices := indices b;
     mesh_matrix := camera_projectionMatrixInverse h camera;
     position := camera_position h camera;
     rotation := camera_rotation h camera |}.

(** The ray cast of one vertex against a plane, lines 300-304. *)
Definition castToPlane (camera : Camera h) (projectionPlane : Plane)
           (v : Vector3) : Vector3 :=
  let point := vec2 (x v) (y v) in
  let ray := setFromCamera h point camera in
  let intersection := Vector3_zero in
  snd (intersectPlane ray projectionPlane intersection).

(** The plane of lines 285-286 and 324-325. *)
Definition projectionPlane (b : t) (camera : Camera h) : Plane :=
  let planeNormal :=
    applyQuaternion h (vec3 0 0 (-1)) (camera_quaternion h camera) in
  setFromNormalAndCoplanarPoint planeNormal (worldOrigin b).

(** [vertices.length < 3] on the flat array: no whole vertex. *)
Definition noVertex (b : t) : bool := (List.length (vertices b) <? 1)%nat.

Definition projectToWorld (b : t) (camera : Camera h) : t :=
  if noVertex b then b
  else
    let projectionPlane := projectionPlane b camera in
    let position' := worldOrigin b in
    let cameraOnGround :=
      vec3 (x (camera_position h camera)) 0 (z (camera_position h camera)) in
    let rotation' := lookAt h position' (rotation b) cameraOnGround in
    let matrix := Matrix4_identity in
    let matrix := makeRotationFromEuler h matrix rotation' in
    let matrix := Matrix4_invert h matrix in
    {| strokeWidth := strokeWidth b; screenPath := screenPath b;
       worldOrigin := worldOrigin b;
       vertices :=
         map (fun v =>
                let intersection := castToPlane camera projectionPlane v in
                vec3 (x intersection - x position')
                     (y intersection - y position')
                     (z intersection - z position'))
             (vertices b);
       indices := indices b;
       position := position';
       rotation := rotation';
       mesh_matrix := matrix |}.

Definition projectToBillboard (b : t) (billboard : Object3D h)
           (camera : Camera h) : t :=
  if noVertex b then b
  else
    let projectionPlane := projectionPlane b camera in
    {| strokeWidth := strokeWidth b; screenPath := screenPath b;
       worldOrigin := worldOrigin b;
       vertices :=
         map (fun v =>
                let intersection := castToPlane camera projectionPlane v in
                let intersection := worldToLocal h billboard intersection in
                vec3 (x intersection) (y intersection) (z intersection))
             (vertices b);
       indices := indices b;
       position := vec3 0 0 0;
       rotation := euler 0 0 0;
       mesh_matrix := Matrix4_identity |}.

Definition projectToSky (b : t) (camera : Camera h) (sky : Object3D h) : t :=
  let projectionSphere := mkSphere (vec3 0 0 0) 495 in
  {| strokeWidth := strokeWidth b; screenPath := screenPath b;
     worldOrigin := worldOrigin b;
     vertices :=
       map (fun v =>
              let point := vec2 (x v) (y v) in
              let ray := setFromCamera h point camera in
              let intersection := Vector3_zero in
              let intersection :=
                snd (intersectSphere ray projectionSphere intersection) in
              let intersection := worldToLocal h sky intersection in
              vec3 (x intersection) (y intersection) (z intersection))
           (vertices b);
     indices := indices b;
     position := vec3 0 0 0;
     rotation := euler 0 0 0;
     mesh_matrix := Matrix4_identity |}.
End Methods.

(** *** The vocabulary of the ribbon's properties *)

(** The state reached from the constructor after [n] accepted points. *)
Record ribbon (b : t) (n : nat) : Prop := {
  ribbon_path : List.length (screenPath b) = n;
  ribbon_started : (1 <= n)%nat;
  ribbon_vertices : List.length (vertices b) = (2 * n)%nat;
  ribbon_indices : List.length (indices b) = (6 * (n - 1))%nat;
  (** the index at position [k] belongs to the triangles of accepted point
      [k / 6 + 2], appended when the buffer held [2 * (k / 6 + 2)] vertices *)
  ribbon_backward :
    forall k i, nth_error (indices b) k = Some i ->
                (0 <= i < 2 * (Z.of_nat (k / 6) + 2))%Z
}.

(** What an accepting call appends. *)
Definition newIndices (b : t) : list Z :=
  let nextIndex := Z.of_nat (List.length (vertices b)) in
  [nextIndex; nextIndex + 1; nextIndex - 2;
   nextIndex - 1; nextIndex - 2; nextIndex + 1]%Z.

(** A ribbon without any vertex, and one with a single vertex: states of the
    class's type that its own methods never reach from the constructor,
    the ones the guard [vertices.length < 3] is written for. *)
Definition emptyRibbon : t :=
  {| strokeWidth := 0.02; screenPath := [vec2 0 0];
     worldOrigin := vec3 1 0 0;
     vertices := []; indices := [];
     position := Vector3_zero; rotation := euler 0 0 0;
     mesh_matrix := Matrix4_identity |}.

Definition oneVertexRibbon : t :=
  {| strokeWidth := 0.02; screenPath := [vec2 0 0];
     worldOrigin := vec3 1 0 0;
     vertices := [vec3 0 0 (-0.999)]; indices := [];
     position := Vector3_zero; rotation := euler 0 0 0;
     mesh_matrix := Matrix4_identity |}.

(** The point a vertex is cast to: the hit of its camera ray on the plane,
    or the untouched zero vector when there is none. *)
Definition hitOrZero (r : Ray) (p : Plane) : Vector3 :=
  match distanceToPlane r p with
  | Some t => at_ r t
  | None => Vector3_zero
  end.

Definition vertexRay (h : Host) (camera : Camera h) (v : Vector3) : Ray :=
  setFromCamera h (vec2 (x v) (y v)) camera.

(** The camera's forward direction. *)
Definition forward (h : Host) (camera : Camera h) : Vector3 :=
  applyQuaternion h (vec3 0 0 (-1)) (camera_quaternion h camera).

(** Each point of a path is farther than [strokeWidth / 2] from the one
    before it, by the test of line 244. *)
Fixpoint spaced (strokeWidth : float) (path : list Vector2) : Prop :=
  match path with
  | a :: (b :: _) as rest =>
      JS.gt (Vector2_distanceTo b a) (strokeWidth / 2) = true /\
      spaced strokeWidth rest
  | _ => True
  end.



(** The sphere of line 367. *)
Definition skySphere : Sphere := mkSphere (vec3 0 0 0) 495.

End Billboard.

(** ** Triangle lists

    An index buffer read as the renderer reads it: three indices per
    triangle, and the three directed edges of each triangle in its winding
    order. *)

Module Mesh.

Fixpoint triangles {A : Type} (l : list A) : list (A * A * A) :=
  match l with
  | a :: b :: c :: rest => (a, b, c) :: triangles rest
  | _ => []
  end.

Definition directedEdges {A : Type} (t : A * A * A) : list (A * A) :=
  let '(a, b, c) := t in [(a, b); (b, c); (c, a)].

Definition edges {A : Type} (l : list A) : list (A * A) :=
  flat_map directedEdges (triangles l).

(** The three corners of a triangle are three different vertices. *)
Definition proper {A : Type} (t : A * A * A) : Prop :=
  let '(a, b, c) := t in a <> b /\ b <> c /\ c <> a.

End Mesh.

(** ** A reference scene

    One implementation of [Host], on which the definitions can be run: an
    unrotated orthographic camera with the unit frustum (near 0, far 2) at a
    given position, so that the ray of the device point [(x, y)] starts at
    [position + (x, y, 0)] and runs along [-Z]; three.js's own formulas for
    the quaternion rotation of a vector, the Euler rotation matrix (order
    XYZ) and the inverse of a matrix; the engine's [cos] and [sin] at the
    three angles that occur, [0], [Math.PI / 2] and [Math.PI]; and [lookAt]
    for an unparented object whose target lies due [+Z] (no turn), due [+X]
    (a quarter turn about the vertical axis) or due [-Z] (a half turn). *)

Module Scene.

Local Open Scope float_scope.

Definition pi : float := 3.141592653589793.
Definition half_pi : float := pi / 2.

Definition cos (a : float) : float :=
  if JS.eq a 0 then 1
  else if JS.eq a half_pi then 6.123233995736766e-17
  else if JS.eq a pi then -1
  else nan.
Definition sin (a : float) : float :=
  if JS.eq a 0 then 0
  else if JS.eq a half_pi then 1
  else if JS.eq a pi then 1.2246467991473532e-16
  else nan.
(** Squares are exact products; no other power occurs. *)
Definition pow (a b : float) : float :=
  if JS.eq b 2 then a * a else nan.

Definition camera_ray (point : Vector2) (position : Vector3) : Ray :=
  mkRay (vec3 (x2 point + x position) (y2 point + y position) (z position))
        (vec3 0 0 (-1)).

Definition projectionMatrixInverse : Matrix4 :=
  mat4 [1; 0; 0; 0;  0; 1; 0; 0;  0; 0; -1; 0;  0; 0; -1; 1].

Definition applyQuaternion (v : Vector3) (q : Quaternion) : Vector3 :=
  let tx := 2 * (qy q * z v - qz q * y v) in
  let ty := 2 * (qz q * x v - qx q * z v) in
  let tz := 2 * (qx q * y v - qy q * x v) in
  vec3 (x v + qw q * tx + qy q * tz - qz q * ty)
       (y v + qw q * ty + qz q * tx - qx q * tz)
       (z v + qw q * tz + qx q * ty - qy q * tx).

Definition lookAt (position : Vector3) (rotation : Euler) (target : Vector3)
  : Euler :=
  let dx := x target - x position in
  let dy := y target - y position in
  let dz := z target - z position in
  if JS.eq dx 0 && JS.eq dy 0 && JS.gt dz 0 then euler 0 0 0
  else if JS.gt dx 0 && JS.eq dy 0 && JS.eq dz 0 then euler 0 half_pi 0
  else if JS.eq dx 0 && JS.eq dy 0 && JS.lt dz 0 then euler 0 pi 0
  else rotation.

Definition makeRotationFromEuler (m : Matrix4) (e : Euler) : Matrix4 :=
  let a := cos (ex e) in let b := sin (ex e) in
  let c := cos (ey e) in let d := sin (ey e) in
  let e' := cos (ez e) in let f := sin (ez e) in
  let ae := a * e' in let af := a * f in
  let be := b * e' in let bf := b * f in
  mat4 [ c * e'; af + be * d; bf - ae * d; 0;
         - c * f; ae - bf * d; be + af * d; 0;
         d; - b * c; a * c; 0;
         0; 0; 0; 1 ].

Definition invert (m : Matrix4) : Matrix4 :=
  let te k := nth k (elements m) 0 in
  let n11 := te 0%nat in let n21 := te 1%nat in
  let n31 := te 2%nat in let n41 := te 3%nat in
  let n12 := te 4%nat in let n22 := te 5%nat in
  let n32 := te 6%nat in let n42 := te 7%nat in
  let n13 := te 8%nat in let n23 := te 9%nat in
  let n33 := te 10%nat in let n43 := te 11%nat in
  let n14 := te 12%nat in let n24 := te 13%nat in
  let n34 := te 14%nat in let n44 := te 15%nat in
  let t11 := n23 * n34 * n42 - n24 * n33 * n42 + n24 * n32 * n43
             - n22 * n34 * n43 - n23 * n32 * n44 + n22 * n33 * n44 in
  let t12 := n14 * n33 * n42 - n13 * n34 * n42 - n14 * n32 * n43
             + n12 * n34 * n43 + n13 * n32 * n44 - n12 * n33 * n44 in
  let t13 := n13 * n24 * n42 - n14 * n23 * n42 + n14 * n22 * n43
             - n12 * n24 * n43 - n13 * n22 * n44 + n12 * n23 * n44 in
  let t14 := n14 * n23 * n32 - n13 * n24 * n32 - n14 * n22 * n33
             + n12 * n24 * n33 + n13 * n22 * n34 - n12 * n23 * n34 in
  let det := n11 * t11 + n21 * t12 + n31 * t13 + n41 * t14 in
  if JS.eq det 0 then mat4 [0; 0; 0; 0; 0; 0; 0; 0; 0; 0; 0; 0; 0; 0; 0; 0]
  else
    let detInv := 1 / det in
    mat4 [ t11 * detInv;
           (n24 * n33 * n41 - n23 * n34 * n41 - n24 * n31 * n43
            + n21 * n34 * n43 + n23 * n31 * n44 - n21 * n33 * n44) * detInv;
           (n22 * n34 * n41 - n24 * n32 * n41 + n24 * n31 * n42
            - n21 * n34 * n42 - n22 * n31 * n44 + n21 * n32 * n44) * detInv;
           (n23 * n32 * n41 - n22 * n33 * n41 - n23 * n31 * n42
            + n21 * n33 * n42 + n22 * n31 * n43 - n21 * n32 * n43) * detInv;
           t12 * detInv;
           (n13 * n34 * n41 - n14 * n33 * n41 + n14 * n31 * n43
            - n11 * n34 * n43 - n13 * n31 * n44 + n11 * n33 * n44) * detInv;
           (n14 * n32 * n41 - n12 * n34 * n41 - n14 * n31 * n42
            + n11 * n34 * n42 + n12 * n31 * n44 - n11 * n32 * n44) * detInv;
           (n12 * n33 * n41 - n13 * n32 * n41 + n13 * n31 * n42
            - n11 * n33 * n42 - n12 * n31 * n43 + n11 * n32 * n43) * detInv;
           t13 * detInv;
           (n14 * n23 * n41 - n13 * n24 * n41 - n14 * n21 * n43
            + n11 * n24 * n43 + n13 * n21 * n44 - n11 * n23 * n44) * detInv;
           (n12 * n24 * n41 - n14 * n22 * n41 + n14 * n21 * n42
            - n11 * n24 * n42 - n12 * n21 * n44 + n11 * n22 * n44) * detInv;
           (n13 * n22 * n41 - n12 * n23 * n41 - n13 * n21 * n42
            + n11 * n23 * n42 + n12 * n21 * n43 - n11 * n22 * n43) * detInv;
           t14 * detInv;
           (n13 * n24 * n31 - n14 * n23 * n31 + n14 * n21 * n33
            - n11 * n24 * n33 - n13 * n21 * n34 + n11 * n23 * n34) * detInv;
           (n14 * n22 * n31 - n12 * n24 * n31 - n14 * n21 * n32
            + n11 * n24 * n32 + n12 * n21 * n34 - n11 * n22 * n34) * detInv;
           (n12 * n23 * n31 - n13 * n22 * n31 + n13 * n21 * n32
            - n11 * n23 * n32 - n12 * n21 * n33 + n11 * n22 * n33) * detInv ].

(** The other scene objects are unparented and untransformed: their local
    frame is the world frame. *)
Definition host : Host :=
  {| Math_cos := cos;
     Math_sin := sin;
     Math_pow := pow;
     Camera := Vector3;
     setFromCamera := camera_ray;
     camera_position := fun c => c;
     camera_rotation := fun _ => euler 0 0 0;
     camera_quaternion := fun _ => quat 0 0 0 1;
     camera_projectionMatrixInverse := fun _ => projectionMatrixInverse;
     THREE.applyQuaternion := applyQuaternion;
     THREE.lookAt := lookAt;
     THREE.makeRotationFromEuler := makeRotationFromEuler;
     Matrix4_invert := invert;
     Object3D := unit;
     worldToLocal := fun _ v => v |}.

End Scene.

(** ** Facts of binary64 arithmetic

    Derived from the specification of the primitive operations. *)

Module FloatFacts.

Import JS.

Lemma SFcompare_antisym (a b : spec_float) :
  SFcompare b a = option_map CompOpp (SFcompare a b).
Proof.
  destruct a as [sa|sa| |sa ma ea], b as [sb|sb| |sb mb eb]; simpl;
    try reflexivity;
    try (destruct sa; reflexivity); try (destruct sb; reflexivity);
    try (destruct sa, sb; reflexivity).
  destruct sa, sb; simpl; try reflexivity;
    rewrite (Z.compare_antisym ea eb);
    destruct (ea ?= eb)%Z; simpl; try reflexivity;
    rewrite !Pos.compare_cont_spec; simpl;
    rewrite (Pos.compare_antisym ma mb);
    destruct (ma ?= mb)%positive; reflexivity.
Qed.

(** Numbers that compare equal are both zeros or are the same number. *)
Lemma SFcompare_Eq_inv (a b : spec_float) :
  SFcompare a b = Some Eq ->
  (exists sa sb, a = S754_zero sa /\ b = S754_zero sb) \/
  (a = b /\ a <> S754_nan).
Proof.
  destruct a as [sa|sa| |sa ma ea], b as [sb|sb| |sb mb eb]; simpl;
    try discriminate;
    try (destruct sa; discriminate); try (destruct sb; discriminate).
  - intros _. left. eauto.
  - destruct sa, sb; try discriminate; intros _; right; split; congruence.
  - destruct sa, sb; try discriminate;
      destruct (ea ?= eb)%Z eqn:He; try discriminate;
      rewrite Pos.compare_cont_spec; simpl;
      destruct (ma ?= mb)%positive eqn:Hm; try discriminate; intros _;
      apply Z.compare_eq in He; apply Pos.compare_eq in Hm; subst;
      right; split; congruence.
Qed.

Lemma SFsub_equal (a b : spec_float) :
  SFcompare a b = Some Eq -> SFzero_or_nan (SF64sub a b).
Proof.
  intros H. destruct (SFcompare_Eq_inv _ _ H) as [(sa & sb & -> & ->)|[<- Hn]].
  - destruct sa, sb; exact I.
  - destruct a as [sa|sa| |sa ma ea]; try congruence.
    + destruct sa; exact I.
    + destruct sa; exact I.
    + unfold SF64sub, SFsub. rewrite Z.sub_diag. exact I.
Qed.

Lemma SFdiv_zero_or_nan (a b : spec_float) :
  SFzero_or_nan a -> SFzero_or_nan b -> SF64div a b = S754_nan.
Proof.
  destruct a as [sa|sa| |sa ma ea], b as [sb|sb| |sb mb eb]; simpl;
    intros Ha Hb; try contradiction; reflexivity.
Qed.

Lemma SFmul_nan_l b : SF64mul S754_nan b = S754_nan.
Proof. reflexivity. Qed.
Lemma SFmul_nan_r a : SF64mul a S754_nan = S754_nan.
Proof. destruct a; reflexivity. Qed.
Lemma SFadd_nan_l b : SF64add S754_nan b = S754_nan.
Proof. reflexivity. Qed.
Lemma SFadd_nan_r a : SF64add a S754_nan = S754_nan.
Proof. destruct a; reflexivity. Qed.
Lemma SFsub_nan_l b : SF64sub S754_nan b = S754_nan.
Proof. reflexivity. Qed.
Lemma SFsub_nan_r a : SF64sub a S754_nan = S754_nan.
Proof. destruct a; reflexivity. Qed.

(** The same facts on binary64 numbers. *)
Local Open Scope float_scope.


(** The comparisons of [a] with [b] and of [b] with [a], by the cases of
    [SFcompare] on their specification values. *)
Ltac compare_cases a b :=
  rewrite ?FloatAxioms.eqb_spec, ?FloatAxioms.leb_spec, ?FloatAxioms.ltb_spec;
  unfold SFeqb, SFleb, SFltb;
  rewrite (SFcompare_antisym (Prim2SF a) (Prim2SF b));
  destruct (SFcompare (Prim2SF a) (Prim2SF b)) as [[]|]; simpl.

Lemma leb_not_gt a b : (a <=? b) = true -> (b <? a) = false.
Proof. compare_cases a b; congruence. Qed.

Lemma ltb_not_ge a b : (a <? b) = true -> (b <=? a) = false.
Proof. compare_cases a b; congruence. Qed.

Lemma eqb_leb a b : (a =? b) = true -> (a <=? b) = true /\ (b <=? a) = true.
Proof. compare_cases a b; try discriminate; auto. Qed.

Lemma eqb_sym a b : (a =? b) = (b =? a).
Proof. compare_cases a b; reflexivity. Qed.

(** [a <= t <= b] with [a == b] pins [t]: [t == a]. *)
Lemma bracket_equal a t b :
  (a <=? t) = true -> (t <=? b) = true -> (a =? b) = true ->
  (t =? a) = true /\ (b =? a) = true.
Proof.
  intros Hat Htb Hab. split; [|now rewrite eqb_sym].
  revert Hat Htb Hab. rewrite FloatAxioms.eqb_spec, !FloatAxioms.leb_spec, FloatAxioms.eqb_spec.
  unfold SFeqb, SFleb.
  destruct (SFcompare (Prim2SF a) (Prim2SF b)) as [[]|] eqn:Hc;
    try discriminate.
  intros Hat Htb _.
  rewrite (SFcompare_antisym (Prim2SF a) (Prim2SF t)).
  destruct (SFcompare_Eq_inv _ _ Hc) as [(sa & sb & Ea & Eb)|[E _]].
  - rewrite Ea in *. rewrite Eb in *.
    destruct (Prim2SF t) as [s|s| |s m e]; simpl in *;
      try reflexivity; try discriminate; destruct s; discriminate.
  - rewrite <- E in Htb.
    rewrite (SFcompare_antisym (Prim2SF a) (Prim2SF t)) in Htb.
    destruct (SFcompare (Prim2SF a) (Prim2SF t)) as [[]|]; simpl in *;
      try discriminate; reflexivity.
Qed.

Lemma sub_equal a b : (a =? b) = true -> zero_or_NaN (a - b).
Proof.
  rewrite FloatAxioms.eqb_spec. unfold SFeqb, zero_or_NaN. rewrite FloatAxioms.sub_spec.
  destruct (SFcompare (Prim2SF a) (Prim2SF b)) as [[]|] eqn:Hc;
    try discriminate.
  intros _. now apply SFsub_equal.
Qed.

Lemma div_zero_or_NaN a b : zero_or_NaN a -> zero_or_NaN b -> NaN (a / b).
Proof.
  unfold zero_or_NaN, NaN. rewrite FloatAxioms.div_spec. apply SFdiv_zero_or_nan.
Qed.

Lemma mul_NaN_l a b : NaN a -> NaN (a * b).
Proof. unfold NaN. rewrite FloatAxioms.mul_spec. now intros ->. Qed.
Lemma mul_NaN_r a b : NaN b -> NaN (a * b).
Proof. unfold NaN. rewrite FloatAxioms.mul_spec. intros ->. apply SFmul_nan_r. Qed.
Lemma add_NaN_l a b : NaN a -> NaN (a + b).
Proof. unfold NaN. rewrite FloatAxioms.add_spec. now intros ->. Qed.
Lemma add_NaN_r a b : NaN b -> NaN (a + b).
Proof. unfold NaN. rewrite FloatAxioms.add_spec. intros ->. apply SFadd_nan_r. Qed.
Lemma sub_NaN_l a b : NaN a -> NaN (a - b).
Proof. unfold NaN. rewrite FloatAxioms.sub_spec. now intros ->. Qed.

(** [NaN != 0] holds: the guard [h != 0] lets a NaN through. *)
Lemma NaN_neq a b : NaN a -> (a =? b) = false.
Proof. unfold NaN. rewrite FloatAxioms.eqb_spec. now intros ->. Qed.

(** Products commute, bit for bit. *)
Lemma SFmul_comm (a b : spec_float) : SF64mul a b = SF64mul b a.
Proof.
  destruct a as [sa|sa| |sa ma ea], b as [sb|sb| |sb mb eb]; simpl;
    try reflexivity; try (now rewrite xorb_comm).
  unfold SF64mul, SFmul.
  now rewrite xorb_comm, Pos.mul_comm, Z.add_comm.
Qed.

Lemma mul_comm a b : a * b = b * a.
Proof.
  apply Prim2SF_inj. rewrite !FloatAxioms.mul_spec. apply SFmul_comm.
Qed.







End FloatFacts.

(** ** The ground grid *)

Module GroundFacts.

Import Ground.

(** A loop that pushes is a [flat_map]. *)
Lemma fold_left_push {A B} (f : A -> list B) (l : list A) (acc : list B) :
  fold_left (fun acc a => acc ++ f a) l acc = acc ++ flat_map f l.
Proof.
  revert acc. induction l as [|a l IH]; intros acc; simpl.
  - now rewrite app_nil_r.
  - now rewrite IH, app_assoc.
Qed.

Lemma fold_left_push_ext {A B} (g : list B -> A -> list B) (f : A -> list B)
      (l : list A) (acc : list B) :
  (forall acc a, g acc a = acc ++ f a) ->
  fold_left g l acc = acc ++ flat_map f l.
Proof.
  intros Hg. revert acc. induction l as [|a l IH]; intros acc; simpl.
  - now rewrite app_nil_r.
  - now rewrite IH, Hg, app_assoc.
Qed.

Lemma grid_indices_flat (n : nat) :
  grid_indices n = flat_map (fun i => flat_map (cell n i) (seq 0 n)) (seq 0 n).
Proof.
  unfold grid_indices.
  rewrite (fold_left_push_ext _ (fun i => flat_map (cell n i) (seq 0 n))).
  - reflexivity.
  - intros acc i. apply fold_left_push.
Qed.

Lemma flat_map_length_const {A B} (f : A -> list B) (k : nat) (l : list A) :
  (forall a, List.length (f a) = k) ->
  List.length (flat_map f l) = List.length l * k.
Proof.
  intros Hf. induction l as [|a l IH]; simpl; [reflexivity|].
  now rewrite length_app, Hf, IH.
Qed.

(** The index buffer has six indices per cell, whatever the vertex loops did. *)
Lemma grid_indices_length (n : nat) :
  List.length (grid_indices n) = 6 * (n * n).
Proof.
  rewrite grid_indices_flat.
  rewrite (flat_map_length_const _ (n * 6)).
  - rewrite length_seq. lia.
  - intros i. rewrite (flat_map_length_const _ 6).
    + now rewrite length_seq.
    + reflexivity.
Qed.

(** Every index addresses the [(n+1) x (n+1)] grid. *)
Lemma grid_indices_range (n : nat) :
  Forall (fun k => k <= (n + 1) * (n + 1) - 1) (grid_indices n).
Proof.
  rewrite grid_indices_flat. apply Forall_forall. intros k Hk.
  apply in_flat_map in Hk. destruct Hk as (i & Hi & Hk).
  apply in_flat_map in Hk. destruct Hk as (j & Hj & Hk).
  apply in_seq in Hi. apply in_seq in Hj.
  unfold cell, convertRowColToIndex in Hk. simpl in Hk.
  destruct Hk as [<-|[<-|[<-|[<-|[<-|[<-|[]]]]]]]; nia.
Qed.

(** The step budget only decides whether a loop finishes, not what it
    computes. *)
Lemma for_le_fuel {S} (body1 body2 : float -> S -> option S) :
  (forall i s r, body1 i s = Some r -> body2 i s = Some r) ->
  forall fuel1 fuel2 i hi inc s r,
    fuel1 <= fuel2 ->
    JS.for_le fuel1 i hi inc body1 s = Some r ->
    JS.for_le fuel2 i hi inc body2 s = Some r.
Proof.
  intros Hb. induction fuel1 as [|f1 IH]; intros fuel2 i hi inc s r Hle; simpl.
  - discriminate.
  - destruct fuel2 as [|f2]; [lia|]. simpl.
    destruct (JS.le i hi); [|auto].
    destruct (body1 i s) as [s'|] eqn:E; [|discriminate].
    rewrite (Hb _ _ _ E). apply IH. lia.
Qed.

Lemma grid_vertices_fuel (fuel1 fuel2 : nat) size n r :
  fuel1 <= fuel2 ->
  grid_vertices fuel1 size n = Some r -> grid_vertices fuel2 size n = Some r.
Proof.
  intros Hle. unfold grid_vertices. apply for_le_fuel; [|assumption].
  intros i s r'. apply for_le_fuel; [|assumption]. auto.
Qed.

Lemma constructor_fuel (fuel1 fuel2 : nat) size n g :
  fuel1 <= fuel2 ->
  constructor fuel1 size n = Some g -> constructor fuel2 size n = Some g.
Proof.
  intros Hle. unfold constructor.
  destruct (grid_vertices fuel1 size n) as [[vs ns]|] eqn:E; [|discriminate].
  now rewrite (grid_vertices_fuel _ _ _ _ _ Hle E).
Qed.

(** Once the loops finish within some budget, every budget gives that mesh
    or runs out. *)
Lemma constructor_deterministic (fuel0 fuel : nat) size n g0 g :
  constructor fuel0 size n = Some g0 ->
  constructor fuel size n = Some g -> g = g0.
Proof.
  intros H0 H.
  destruct (Nat.le_ge_cases fuel fuel0) as [Hle|Hle].
  - rewrite (constructor_fuel _ _ _ _ _ Hle H) in H0. congruence.
  - rewrite (constructor_fuel _ _ _ _ _ Hle H0) in H. congruence.
Qed.

Lemma for_le_ext {S} (body1 body2 : float -> S -> option S) :
  (forall v s, body1 v s = body2 v s) ->
  forall fuel i hi inc s,
    JS.for_le fuel i hi inc body1 s = JS.for_le fuel i hi inc body2 s.
Proof.
  intros Hb fuel. induction fuel as [|fuel IH]; intros i hi inc s; simpl.
  - reflexivity.
  - destruct (JS.le i hi); [|reflexivity].
    rewrite Hb. destruct (body2 i s); [apply IH|reflexivity].
Qed.

(** A loop whose body always succeeds folds the body over the values of the
    loop variable. *)
Lemma for_le_fold {S} (f : float -> S -> S) fuel i hi inc (s : S) :
  JS.for_le fuel i hi inc (fun v s => Some (f v s)) s
  = option_map (fun vs => fold_left (fun s v => f v s) vs s)
               (JS.for_le_values fuel i hi inc).
Proof.
  revert i s. induction fuel as [|fuel IH]; intros i s; simpl; [reflexivity|].
  destruct (JS.le i hi); [|reflexivity].
  rewrite IH. now destruct (JS.for_le_values fuel _ hi inc).
Qed.

Lemma fold_left_pointwise {A S} (f g : S -> A -> S) (l : list A) (s : S) :
  (forall s a, f s a = g s a) -> fold_left f l s = fold_left g l s.
Proof.
  intros Hfg. revert s. induction l as [|a l IH]; intros s; simpl.
  - reflexivity.
  - now rewrite Hfg, IH.
Qed.

Lemma fold_left_push_pair {A B C} (f : A -> B) (g : A -> C) (l : list A)
      (bs : list B) (cs : list C) :
  fold_left (fun (s : list B * list C) a =>
               let '(bs, cs) := s in (bs ++ [f a], cs ++ [g a])) l (bs, cs)
  = (bs ++ map f l, cs ++ map g l).
Proof.
  revert bs cs. induction l as [|a l IH]; intros bs cs; simpl.
  - now rewrite !app_nil_r.
  - now rewrite IH, <- !app_assoc.
Qed.

Lemma fold_left_push_rows {A B C} (f : A -> list B) (g : A -> list C)
      (l : list A) (bs : list B) (cs : list C) :
  fold_left (fun (s : list B * list C) a => (fst s ++ f a, snd s ++ g a))
            l (bs, cs)
  = (bs ++ flat_map f l, cs ++ flat_map g l).
Proof.
  revert bs cs. induction l as [|a l IH]; intros bs cs; simpl.
  - now rewrite !app_nil_r.
  - now rewrite IH, <- !app_assoc.
Qed.

(** The vertex buffer of a finished construction is a square grid: with
    [xs] the values the loop variable takes from [-size/2] by steps of
    [size/segments] while [<= size/2], it lists [(i, 0, j)] for [i] in [xs]
    and [j] in [xs], row by row, every vertex with [Y = 0].  Its length is
    the square of the number of those values, which binary64 rounding
    decides. *)
Lemma grid_vertices_square fuel size n vs ns :
  grid_vertices fuel size n = Some (vs, ns) ->
  exists xs,
    JS.for_le_values fuel (- size / 2)%float (size / 2)%float
                     (size / JS.of_nat n)%float = Some xs /\
    vs = flat_map (fun i => map (fun j => vec3 i 0 j) xs) xs /\
    List.length vs = List.length xs * List.length xs /\
    List.length ns = List.length vs.
Proof.
  unfold grid_vertices.
  set (lo := (- size / 2)%float). set (hi := (size / 2)%float).
  set (inc := (size / JS.of_nat n)%float).
  set (inner := fun (i j : float) (s : list Vector3 * list Vector3) =>
                  let '(vs, ns) := s in
                  (vs ++ [vec3 i 0 j], ns ++ [vec3 0 1 0])).
  assert (Hin : forall i s,
             JS.for_le fuel lo hi inc
               (fun j '(vs, ns) => Some (vs ++ [vec3 i 0 j], ns ++ [vec3 0 1 0]))
               s
             = option_map (fun xs => fold_left (fun s j => inner i j s) xs s)
                          (JS.for_le_values fuel lo hi inc)).
  { intros i s. rewrite <- for_le_fold. apply for_le_ext.
    intros v [vs0 ns0]. reflexivity. }
  intros H. rewrite (for_le_ext _ _ Hin) in H.
  destruct (JS.for_le_values fuel lo hi inc) as [xs|] eqn:Exs; simpl in H.
  - exists xs. split; [reflexivity|].
    rewrite for_le_fold, Exs in H. simpl in H. injection H as H.
    assert (Hrow : forall (s : list Vector3 * list Vector3) i,
               fold_left (fun s0 j => inner i j s0) xs s
               = (fst s ++ map (fun j => vec3 i 0 j) xs,
                  snd s ++ map (fun _ => vec3 0 1 0) xs)).
    { intros [vs0 ns0] i.
      apply (fold_left_push_pair (fun j => vec3 i 0 j) (fun _ => vec3 0 1 0)). }
    rewrite (fold_left_pointwise _ _ _ _ Hrow) in H.
    rewrite (fold_left_push_rows (fun i => map (fun j => vec3 i 0 j) xs)
                                 (fun _ => map (fun _ => vec3 0 1 0) xs)) in H.
    simpl in H.
    injection H as <- <-.
    split; [reflexivity|].
    rewrite !(flat_map_length_const _ (List.length xs))
      by (intros; apply length_map).
    split; reflexivity.
  - destruct fuel as [|fuel']; simpl in H; [discriminate|].
    simpl in Exs. destruct (JS.le lo hi); discriminate.
Qed.

(** The scenario of the specification: [new Ground(10, 2)] is a 3 x 3 grid
    over [-5, 5] x [-5, 5] with 24 indices. *)
Example ground_10_2 :
  option_map (fun g => (vertices g, List.length (indices g)))
             (constructor 8 10 2)
  = Some ([ vec3 (-5) 0 (-5); vec3 (-5) 0 0; vec3 (-5) 0 5;
            vec3 0 0 (-5); vec3 0 0 0; vec3 0 0 5;
            vec3 5 0 (-5); vec3 5 0 0; vec3 5 0 5 ]%float, 24).
Proof. vm_compute. reflexivity. Qed.

(** The twelfth value of the loop variable of [new Ground(1, 11)]. *)
Example twelfth_step_overshoots :
  twelfth_step = 0.5000000000000001%float /\
  JS.le twelfth_step (1 / 2)%float = false.
Proof. split; vm_compute; reflexivity. Qed.

(** C2 (code bug): [new Ground(1, 11)], a positive size and an integer
    segment count, does not produce [(11+1)^2 = 144] vertices.  Whatever
    the step budget, a finished construction has 121 vertices (11 per row,
    the binary64 loop variable passing [size/2] one step early), while the
    index buffer has its [6 * 11^2 = 726] indices and they reach 143, past
    the last vertex, 120. *)
Theorem C2_ground_1_11_has_121_vertices :
  (exists g, constructor 16 1 11 = Some g) /\
  forall fuel g,
    constructor fuel 1 11 = Some g ->
    List.length (vertices g) = 121 /\
    List.length (vertices g) <> (segments g + 1) * (segments g + 1) /\
    List.length (indices g) = 6 * (segments g * segments g) /\
    In 143 (indices g) /\
    nth_error (vertices g) 143 = None.
Proof.
  assert (H0 : exists g0, constructor 16 1 11 = Some g0 /\
                          List.length (vertices g0) = 121 /\
                          segments g0 = 11 /\
                          indices g0 = grid_indices 11).
  { eexists. split; [vm_compute; reflexivity|]. repeat split. }
  destruct H0 as (g0 & Hg0 & Hlen & Hseg & Hidx).
  split; [now exists g0|].
  intros fuel g Hg. rewrite (constructor_deterministic _ _ _ _ _ _ Hg0 Hg).
  rewrite Hlen, Hseg, Hidx.
  split; [reflexivity|]. split; [discriminate|].
  split; [apply grid_indices_length|].
  split; [vm_compute; tauto|].
  apply nth_error_None. rewrite Hlen. lia.
Qed.

End GroundFacts.

(** ** The silhouette curve *)

Module SilhouetteFacts.

Import Ground.
Local Open Scope float_scope.

Lemma silhouette_map (h : Host) screenPath plane (camera : Camera h) :
  silhouette h screenPath plane camera = map (sample h plane camera) screenPath.
Proof.
  unfold silhouette.
  rewrite (GroundFacts.fold_left_push_ext _ (fun p => [sample h plane camera p]))
    by reflexivity.
  simpl. induction screenPath as [|p ps IH]; simpl; [reflexivity|].
  now rewrite IH.
Qed.

Lemma parallelOff_misses (r : Ray) (p : Plane) (target : Vector3) :
  parallelOff r p = true -> intersectPlane r p target = (None, target).
Proof.
  unfold parallelOff, intersectPlane, distanceToPlane.
  intros H. apply andb_prop in H. destruct H as [H1 H2].
  rewrite H1. apply negb_true_iff in H2. now rewrite H2.
Qed.

(** C1: in [reshapeGround] the silhouette curve has one point per sample of
    [screenPath], in input order: the point where the sample's camera ray
    meets the reshape plane, or the zero point [(0,0,0)] when
    [intersectPlane] finds no intersection, as it does for a ray parallel
    to the plane.  The sample is neither skipped nor does the call fail. *)
Theorem C1_silhouette_one_point_per_sample
        (h : Host) (screenPath : list Vector2)
        (groundStartPoint groundEndPoint : Vector3) (camera : Camera h) :
  let plane := reshapePlane groundStartPoint groundEndPoint in
  let curve := silhouette h screenPath plane camera in
  List.length curve = List.length screenPath /\
  (forall i p, nth_error screenPath i = Some p ->
     nth_error curve i =
     Some (match fst (intersectPlane (sampleRay h camera p) plane Vector3_zero) with
           | Some hit => hit
           | None => Vector3_zero
           end)) /\
  (forall i p, nth_error screenPath i = Some p ->
     parallelOff (sampleRay h camera p) plane = true ->
     nth_error curve i = Some Vector3_zero).
Proof.
  intros plane curve. unfold curve. rewrite silhouette_map.
  split; [apply length_map|].
  assert (Hs : forall p, sample h plane camera p =
                         match fst (intersectPlane (sampleRay h camera p) plane
                                                   Vector3_zero) with
                         | Some hit => hit
                         | None => Vector3_zero
                         end).
  { intros p. unfold sample, sampleRay, intersectPlane.
    destruct (distanceToPlane _ plane); reflexivity. }
  split.
  - intros i p Hp. rewrite nth_error_map, Hp. simpl. now rewrite Hs.
  - intros i p Hp Hpar. rewrite nth_error_map, Hp. simpl. rewrite Hs.
    now rewrite (parallelOff_misses _ _ Vector3_zero Hpar).
Qed.

(** Runs in the reference scene, the camera looking along [-Z].  The plane
    through [(-5,0,0)] and [(5,0,0)] is [z = 0]: from [(0,0,10)] every
    sample hits it; from [(0,0,-10)] the plane is behind the camera and the
    sample becomes the zero point.  The plane through [(0,0,-5)] and
    [(0,0,5)] is [x = 0]: the rays are parallel to it, and the sample
    [(1,2)], off the plane, becomes the zero point. *)
Lemma C1_silhouette_run :
  silhouette Scene.host [vec2 1 2; vec2 3 4]
             (reshapePlane (vec3 (-5) 0 0) (vec3 5 0 0)) (vec3 0 0 10)
  = [vec3 1 2 0; vec3 3 4 0] /\
  nth_error (silhouette Scene.host [vec2 1 2; vec2 3 4]
                        (reshapePlane (vec3 (-5) 0 0) (vec3 5 0 0))
                        (vec3 0 0 (-10))) 1%nat
  = Some Vector3_zero /\
  nth_error (silhouette Scene.host [vec2 1 2; vec2 3 4]
                        (reshapePlane (vec3 0 0 (-5)) (vec3 0 0 5))
                        (vec3 0 0 10)) 0%nat
  = Some Vector3_zero.
Proof.
  split; [vm_compute; reflexivity|]. split.
  - rewrite (proj1 (proj2 (C1_silhouette_one_point_per_sample
                             Scene.host [vec2 1 2; vec2 3 4]
                             (vec3 (-5) 0 0) (vec3 5 0 0) (vec3 0 0 (-10))))
                   1%nat (vec2 3 4) eq_refl).
    vm_compute. reflexivity.
  - apply (proj2 (proj2 (C1_silhouette_one_point_per_sample
                           Scene.host [vec2 1 2; vec2 3 4]
                           (vec3 0 0 (-5)) (vec3 0 0 5) (vec3 0 0 10)))
                 0%nat (vec2 1 2) eq_refl).
    vm_compute. reflexivity.
Defined.

End SilhouetteFacts.

(** ** The ribbon mesh *)

Module RibbonFacts.

Import Billboard.
Local Open Scope float_scope.

Lemma ribbon_constructor deviceCoords worldOrigin strokeWidth :
  ribbon (constructor deviceCoords worldOrigin strokeWidth) 1.
Proof.
  constructor; simpl; try reflexivity; try lia.
  intros k i H. destruct k; discriminate.
Qed.

Lemma lastPoint_some (b : t) (n : nat) :
  ribbon b n -> exists endPoint, lastPoint b = Some endPoint.
Proof.
  intros [Hp Hn _ _ _]. unfold lastPoint.
  destruct (nth_error (screenPath b) (List.length (screenPath b) - 1)) eqn:E.
  - eauto.
  - apply nth_error_None in E. lia.
Qed.

Lemma addNewPoint_cases (h : Host) (b : t) (p : Vector2) (n : nat) :
  ribbon b n ->
  addNewPoint h b p = JS.Ok b \/
  exists b', addNewPoint h b p = JS.Ok b' /\
             (exists v1 v2, vertices b' = vertices b ++ [v1; v2]) /\
             indices b' = indices b ++ newIndices b /\
             screenPath b' = screenPath b ++ [vec2 (x2 p) (y2 p)].
Proof.
  intros Hr. destruct (lastPoint_some _ _ Hr) as [e He].
  unfold addNewPoint. rewrite He.
  destruct (JS.gt _ _); [right|now left].
  eexists. split; [reflexivity|]. simpl. repeat split.
  - do 2 eexists. now rewrite <- app_assoc.
  - now rewrite <- app_assoc.
Qed.

Lemma ribbon_step (h : Host) (b : t) (p : Vector2) (n : nat) :
  ribbon b n ->
  exists b' n', addNewPoint h b p = JS.Ok b' /\ ribbon b' n'.
Proof.
  intros Hr. destruct (addNewPoint_cases h _ p _ Hr)
    as [E|(b' & E & (v1 & v2 & Hv) & Hi & Hs)].
  - now exists b, n.
  - exists b', (S n). split; [exact E|].
    destruct Hr as [Hp Hn Hvl Hil Hb].
    constructor.
    + rewrite Hs, length_app, Hp. simpl. lia.
    + lia.
    + rewrite Hv, length_app, Hvl. simpl. lia.
    + rewrite Hi, length_app, Hil. simpl. lia.
    + intros k i Hk. rewrite Hi in Hk.
      destruct (Nat.lt_ge_cases k (List.length (indices b))) as [Hlt|Hge].
      * rewrite nth_error_app1 in Hk by assumption. eauto.
      * rewrite nth_error_app2 in Hk by assumption.
        assert (Hq : (k / 6 = n - 1)%nat).
        { assert (Hk' : (k - List.length (indices b) < 6)%nat).
          { change 6%nat with (List.length (newIndices b)).
            apply nth_error_Some. congruence. }
          symmetry. apply (Nat.div_unique k 6 (n - 1) (k - 6 * (n - 1))); lia. }
        rewrite Hq. unfold newIndices in Hk. rewrite Hvl in Hk.
        remember (k - List.length (indices b))%nat as j.
        destruct j as [|[|[|[|[|[|j]]]]]]; simpl in Hk;
          try (destruct j; discriminate);
          injection Hk as <-; lia.
Qed.

Lemma addPoints_from (h : Host) (ps : list Vector2) (b : t) (n : nat) :
  ribbon b n -> exists b' n', addPoints h b ps = JS.Ok b' /\ ribbon b' n'.
Proof.
  unfold addPoints. revert b n.
  induction ps as [|p ps IH]; intros b n Hr; simpl.
  - now exists b, n.
  - destruct (ribbon_step h _ p _ Hr) as (b1 & n1 & E & Hr1).
    rewrite E. eauto.
Qed.

(** C3: after any sequence of [addNewPoint] calls on a new billboard no call
    has thrown and, with [n] the number of accepted path points (the
    constructor's included), the ribbon has exactly [2n] vertices and
    [2(n-1)] triangles (three indices each); the vertex count is even; and
    the index stored at position [k] of the index buffer is a vertex index
    below [2 (k/6 + 2)], the number of vertices the buffer held when that
    index was appended, hence below [2n]: no forward reference. *)
Theorem C3_ribbon_counts (h : Host) (deviceCoords : Vector2)
        (worldOrigin : Vector3) (strokeWidth : float) (ps : list Vector2) :
  exists b,
    addPoints h (constructor deviceCoords worldOrigin strokeWidth) ps = JS.Ok b /\
    let n := List.length (screenPath b) in
    (1 <= n)%nat /\
    List.length (vertices b) = (2 * n)%nat /\
    List.length (indices b) = (3 * (2 * (n - 1)))%nat /\
    Nat.Even (List.length (vertices b)) /\
    forall k i, nth_error (indices b) k = Some i ->
                (0 <= i < 2 * (Z.of_nat (k / 6) + 2))%Z /\
                (2 * (Z.of_nat (k / 6) + 2) <= Z.of_nat (List.length (vertices b)))%Z.
Proof.
  destruct (addPoints_from h ps _ _
              (ribbon_constructor deviceCoords worldOrigin strokeWidth))
    as (b & n & E & [Hp Hn Hv Hi Hb]).
  exists b. split; [exact E|]. cbv zeta. rewrite Hp.
  split; [exact Hn|]. split; [exact Hv|]. split; [rewrite Hi; lia|].
  split; [rewrite Hv; now exists n|].
  intros k i Hk. split; [eauto|].
  assert (Hlt : (k < 6 * (n - 1))%nat).
  { rewrite <- Hi. apply nth_error_Some. congruence. }
  assert (Hq : (k / 6 < n - 1)%nat) by (apply Nat.Div0.div_lt_upper_bound; lia).
  rewrite Hv. lia.
Qed.

(** C6: a point within [strokeWidth / 2] of the last accepted point is
    rejected: [addNewPoint] returns the billboard as it was, vertex buffer,
    index buffer and accepted path included, and so does repeating the call
    with the same point. *)
Theorem C6_close_point_is_rejected (h : Host) (b : t) (p endPoint : Vector2) :
  lastPoint b = Some endPoint ->
  JS.le (Vector2_distanceTo (vec2 (x2 p) (y2 p)) endPoint) (strokeWidth b / 2)
  = true ->
  addNewPoint h b p = JS.Ok b /\
  (b' <- addNewPoint h b p ;; addNewPoint h b' p) = JS.Ok b.
Proof.
  intros Hlast Hle.
  assert (E : addNewPoint h b p = JS.Ok b).
  { unfold addNewPoint. rewrite Hlast. unfold JS.gt.
    now rewrite (FloatFacts.leb_not_gt _ _ Hle). }
  split; [exact E|]. rewrite E. simpl. exact E.
Qed.

(** The scenario of the specification: a ribbon of three well-separated
    points, the constructor's and two added, has six vertices and four
    triangles; a fourth call that repeats the last point adds nothing. *)
Example ribbon_three_points :
  match addPoints Scene.host (constructor (vec2 0 0) Vector3_zero 0.02)
                  [vec2 0.1 0; vec2 0.1 0.1; vec2 0.1 0.1] with
  | JS.Ok b => (List.length (screenPath b), List.length (vertices b), indices b)
  | JS.Throw _ => (O, O, [])
  end = (3%nat, 6%nat, [2; 3; 0; 1; 0; 3; 4; 5; 2; 3; 2; 5]%Z).
Proof. vm_compute. reflexivity. Qed.

(** A rejected point in the reference scene: [(0.005, 0)] is within
    [0.02 / 2] of the first point. *)
Lemma C6_close_point_run :
  addNewPoint Scene.host (constructor (vec2 0 0) Vector3_zero 0.02)
              (vec2 0.005 0)
  = JS.Ok (constructor (vec2 0 0) Vector3_zero 0.02).
Proof.
  apply (C6_close_point_is_rejected Scene.host
           (constructor (vec2 0 0) Vector3_zero 0.02)
           (vec2 0.005 0) (vec2 0 0)).
  - vm_compute. reflexivity.
  - vm_compute. reflexivity.
Defined.

End RibbonFacts.

(** ** The projection modes *)

Module ProjectionFacts.

Import Billboard.
Local Open Scope float_scope.

(** C7 (as stated, refuted): with fewer than one full vertex pair the
    projection modes are not all without effect.  On the empty ribbon
    [projectToNearPlane] still moves the billboard to the camera and
    replaces the mesh matrix; on a ribbon of one vertex [projectToWorld]
    passes its guard, moves the billboard to [worldOrigin] and rewrites the
    vertex. *)
Lemma C7_modes_with_effect :
  (List.length (vertices emptyRibbon) < 2)%nat /\
  position (projectToNearPlane Scene.host emptyRibbon (vec3 0 0 10))
  = vec3 0 0 10 /\
  projectToNearPlane Scene.host emptyRibbon (vec3 0 0 10) <> emptyRibbon /\
  (List.length (vertices oneVertexRibbon) < 2)%nat /\
  position (projectToWorld Scene.host oneVertexRibbon (vec3 1 0 10))
  = vec3 1 0 0 /\
  vertices (projectToWorld Scene.host oneVertexRibbon (vec3 1 0 10))
  = [vec3 0 0 0] /\
  projectToWorld Scene.host oneVertexRibbon (vec3 1 0 10) <> oneVertexRibbon.
Proof.
  repeat split; try (vm_compute; reflexivity); try (vm_compute; lia);
    intros H; apply (f_equal position) in H; vm_compute in H; discriminate.
Qed.

(** C7 (amended): [projectToWorld] and [projectToBillboard], invoked on a
    ribbon whose vertex buffer holds no vertex, return at once and leave the
    whole state as it was; [projectToNearPlane] has no guard and on every
    ribbon sets the mesh matrix, the position and the rotation from the
    camera and nothing else.  None of the three can throw. *)
Theorem C7_guarded_modes (h : Host) (b : t) (camera : Camera h)
        (billboard : Object3D h) :
  (noVertex b = true ->
   projectToWorld h b camera = b /\
   projectToBillboard h b billboard camera = b) /\
  projectToNearPlane h b camera =
  {| strokeWidth := strokeWidth b; screenPath := screenPath b;
     worldOrigin := worldOrigin b;
     vertices := vertices b; indices := indices b;
     mesh_matrix := camera_projectionMatrixInverse h camera;
     position := camera_position h camera;
     rotation := camera_rotation h camera |}.
Proof.
  split; [|reflexivity].
  intros Hb. unfold projectToWorld, projectToBillboard. now rewrite Hb.
Qed.

(** [projectToSky] has no guard either: on a ribbon without a vertex it
    casts nothing, and still resets the position, the rotation and the mesh
    matrix. *)
Lemma projectToSky_empty (h : Host) (b : t) (camera : Camera h)
      (sky : Object3D h) :
  vertices b = [] ->
  projectToSky h b camera sky =
  {| strokeWidth := strokeWidth b; screenPath := screenPath b;
     worldOrigin := worldOrigin b;
     vertices := []; indices := indices b;
     position := vec3 0 0 0; rotation := euler 0 0 0;
     mesh_matrix := Matrix4_identity |}.
Proof. intros Hv. unfold projectToSky. now rewrite Hv. Qed.

(** The guards at work on the empty ribbon of the reference scene. *)
Lemma C7_guarded_run :
  projectToWorld Scene.host emptyRibbon (vec3 0 0 10) = emptyRibbon /\
  projectToBillboard Scene.host emptyRibbon tt (vec3 0 0 10) = emptyRibbon.
Proof.
  apply (proj1 (C7_guarded_modes Scene.host emptyRibbon (vec3 0 0 10) tt)).
  vm_compute. reflexivity.
Defined.

(** C8 (as stated, refuted), in the reference scene.  A billboard at the
    origin seen from [(10, 3, 0)] turns a quarter turn toward the camera's
    ground point, and its mesh matrix ends as the inverse of that turn, not
    as the identity.  A billboard anchored at [(0, 0, 20)], behind a camera
    at [(0, 0, 10)] that looks along [-Z]: no vertex ray meets the plane,
    and each vertex becomes [(0,0,0) - worldOrigin]. *)
Lemma C8_world_mode_counterexample :
  mesh_matrix (projectToWorld Scene.host
                 (constructor (vec2 0 0) (vec3 0 0 0) 0.02) (vec3 10 3 0))
  = mat4 [6.123233995736766e-17; 0; 1; 0;  0; 1; 0; 0;
          -1; 0; 6.123233995736766e-17; 0;  0; 0; 0; 1] /\
  mesh_matrix (projectToWorld Scene.host
                 (constructor (vec2 0 0) (vec3 0 0 0) 0.02) (vec3 10 3 0))
  <> Matrix4_identity /\
  distanceToPlane
    (vertexRay Scene.host (vec3 0 0 10) (vec3 0 0 (-0.999)))
    (projectionPlane Scene.host (constructor (vec2 0 0) (vec3 0 0 20) 0.02)
                     (vec3 0 0 10))
  = None /\
  vertices (projectToWorld Scene.host
              (constructor (vec2 0 0) (vec3 0 0 20) 0.02) (vec3 0 0 10))
  = [vec3 0 0 (-20); vec3 0 0 (-20)].
Proof.
  repeat split; try (vm_compute; reflexivity).
  intros H. vm_compute in H. discriminate.
Qed.

(** C8 (amended): in world-plane mode, on a ribbon with a vertex, every
    vertex is replaced by the point where its unprojected camera ray meets
    the plane through [worldOrigin] whose normal is the camera's forward
    direction, or by the zero point when the ray does not meet it, stored
    relative to the billboard's position, which is set to [worldOrigin];
    before the vertices are assigned the mesh matrix is set to the identity
    and then overwritten with the inverse of the rotation matrix of the
    rotation that [lookAt] gave the billboard. *)
Theorem C8_world_mode (h : Host) (b : t) (camera : Camera h) :
  noVertex b = false ->
  let b' := projectToWorld h b camera in
  let plane := setFromNormalAndCoplanarPoint (forward h camera) (worldOrigin b) in
  let cameraOnGround :=
    vec3 (x (camera_position h camera)) 0 (z (camera_position h camera)) in
  position b' = worldOrigin b /\
  vertices b' =
  map (fun v => subVectors (hitOrZero (vertexRay h camera v) plane)
                           (worldOrigin b))
      (vertices b) /\
  rotation b' = lookAt h (worldOrigin b) (rotation b) cameraOnGround /\
  mesh_matrix b' =
  Matrix4_invert h (makeRotationFromEuler h Matrix4_identity (rotation b')) /\
  indices b' = indices b /\ screenPath b' = screenPath b.
Proof.
  intros Hb. unfold projectToWorld. rewrite Hb. simpl.
  repeat split.
  apply map_ext. intros v.
  unfold castToPlane, hitOrZero, vertexRay, intersectPlane, projectionPlane,
    forward, subVectors.
  destruct (distanceToPlane _ _); reflexivity.
Qed.

(** World-plane mode on a new billboard at the origin, seen from
    [(0, 0, 10)]: the two start vertices land on the plane [z = 0]. *)
Lemma C8_world_mode_run :
  vertices (projectToWorld Scene.host
              (constructor (vec2 0.5 0.25) (vec3 0 0 0) 0.02) (vec3 0 0 10))
  = [vec3 0.5 0.25 0; vec3 0.5 0.25 0].
Proof.
  rewrite (proj1 (proj2 (C8_world_mode Scene.host
                           (constructor (vec2 0.5 0.25) (vec3 0 0 0) 0.02)
                           (vec3 0 0 10) eq_refl))).
  vm_compute. reflexivity.
Defined.

End ProjectionFacts.

(** ** The height-field deformer *)

Module ReshapeFacts.

Import Ground.
Local Open Scope float_scope.

(** The index loop of [computeH] visits the consecutive pairs in order. *)
Lemma computeH_scan_find (closestPoint origin planeX : Vector3)
      (pre : list Vector3) (a : Vector3) (rest : list Vector3) :
  computeH_scan closestPoint origin planeX (pre ++ a :: rest)
                (seq (List.length pre + 1) (List.length rest))
  = match find (brackets origin planeX (planeSpaceX origin planeX closestPoint))
               (combine (a :: rest) rest) with
    | Some pr =>
        interpolatedY origin planeX (planeSpaceX origin planeX closestPoint) pr
        - y closestPoint
    | None => 0
    end.
Proof.
  revert pre a. induction rest as [|b rest IH]; intros pre a.
  - reflexivity.
  - cbn [List.length seq computeH_scan combine find].
    replace (List.length pre + 1 - 1)%nat with (List.length pre) by lia.
    rewrite nth_middle.
    replace (nth (List.length pre + 1) (pre ++ a :: b :: rest) Vector3_zero)
      with b.
    2:{ replace (pre ++ a :: b :: rest) with ((pre ++ [a]) ++ b :: rest)
          by now rewrite <- app_assoc.
        replace (List.length pre + 1)%nat with (List.length (pre ++ [a]))
          by (rewrite length_app; reflexivity).
        now rewrite nth_middle. }
    set (xT := planeSpaceX origin planeX closestPoint) in *.
    assert (Hbr : brackets origin planeX xT (a, b)
                  = (bracketsAscending xT (planeSpaceX origin planeX a)
                                       (planeSpaceX origin planeX b)
                     || bracketsDescending xT (planeSpaceX origin planeX a)
                                           (planeSpaceX origin planeX b)))
      by reflexivity.
    rewrite Hbr. unfold interpolatedY. cbn [fst snd].
    fold (bracketsAscending xT (planeSpaceX origin planeX a)
                            (planeSpaceX origin planeX b)).
    fold (bracketsDescending xT (planeSpaceX origin planeX a)
                             (planeSpaceX origin planeX b)).
    destruct (bracketsAscending xT _ _) eqn:Ea; cbn [orb].
    { cbn [fst snd]. now rewrite Ea. }
    destruct (bracketsDescending xT _ _) eqn:Ed.
    { cbn [fst snd]. now rewrite Ea. }
    specialize (IH (pre ++ [a]) b).
    rewrite <- app_assoc in IH. cbn [app] in IH.
    rewrite length_app in IH. cbn [List.length] in IH.
    replace (S (List.length pre + 1)) with (List.length pre + 1 + 1)%nat by lia.
    exact IH.
Qed.

Lemma computeH_find (closestPoint origin : Vector3) (rest : list Vector3)
      (plane : Plane) :
  computeH closestPoint (origin :: rest) plane
  = JS.Ok match firstBracketing closestPoint (origin :: rest) plane with
          | Some pr =>
              interpolatedY origin (planeXAxis plane)
                            (targetX closestPoint (origin :: rest) plane) pr
              - y closestPoint
          | None => 0
          end.
Proof.
  unfold computeH, firstBracketing, targetX, consecutivePairs, planeXAxis.
  cbn [hd tl List.length].
  replace (S (List.length rest) - 1)%nat with (List.length rest) by lia.
  f_equal. apply (computeH_scan_find closestPoint origin _ [] origin rest).
Qed.

Lemma find_all_false {A} (f : A -> bool) (l : list A) :
  (forall a, In a l -> f a = false) -> find f l = None.
Proof.
  induction l as [|a l IH]; intros H; simpl; [reflexivity|].
  rewrite (H a (or_introl eq_refl)). apply IH. intros; apply H; now right.
Qed.

(** No segment brackets a target strictly to one side of the whole curve. *)
Lemma outside_no_bracket (closestPoint : Vector3) (curve : list Vector3)
      (plane : Plane) :
  Forall (fun xc => JS.lt (targetX closestPoint curve plane) xc = true)
         (curveX curve plane) \/
  Forall (fun xc => JS.lt xc (targetX closestPoint curve plane) = true)
         (curveX curve plane) ->
  firstBracketing closestPoint curve plane = None.
Proof.
  intros H. unfold firstBracketing. apply find_all_false.
  intros [a b] Hin. unfold consecutivePairs in Hin.
  assert (Ha : In a curve) by (eapply in_combine_l; eauto).
  assert (Hb : In b curve).
  { apply in_combine_r in Hin. destruct curve; [contradiction|now right]. }
  unfold curveX, targetX in H.
  set (o := hd Vector3_zero curve) in *.
  set (pX := planeXAxis plane) in *.
  set (xT := planeSpaceX o pX closestPoint) in *.
  assert (Hx : forall c, In c curve -> In (planeSpaceX o pX c)
                                          (map (planeSpaceX o pX) curve))
    by (intros; now apply in_map).
  unfold brackets, bracketsAscending, bracketsDescending, JS.le. cbn [fst snd].
  destruct H as [H|H]; rewrite Forall_forall in H;
    pose proof (H _ (Hx _ Ha)) as Hxa; pose proof (H _ (Hx _ Hb)) as Hxb;
    unfold JS.lt in Hxa, Hxb;
    apply FloatFacts.ltb_not_ge in Hxa; apply FloatFacts.ltb_not_ge in Hxb;
    rewrite Hxa, Hxb; now rewrite ?andb_false_r.
Qed.

(** Without a first point [computeH] throws: [silhouetteCurve[0]] is
    [undefined].  A [ScreenPath] is non-empty, and so is its curve. *)
Example computeH_empty_curve (closestPoint : Vector3) (plane : Plane) :
  computeH closestPoint [] plane = JS.Throw JS.TypeError.
Proof. reflexivity. Qed.

(** C4: on a curve with a first point, [computeH] does not throw and its
    index loop computes [computeH_spec]: it returns, for the first
    consecutive pair in curve order whose plane-local X interval brackets
    [xTarget] (ascending bracket tested first, then descending), the
    curve's Y interpolated at the bracketing fraction less
    [closestPoint.y]; it returns exactly [0] if no pair brackets [xTarget],
    and so whenever [xTarget] is strictly below or strictly above every
    plane-local X of the curve. *)
Theorem C4_computeH_first_bracketing_pair
        (closestPoint origin : Vector3) (rest : list Vector3) (plane : Plane) :
  let curve := origin :: rest in
  let xTarget := targetX closestPoint curve plane in
  computeH closestPoint curve plane
  = JS.Ok (computeH_spec closestPoint curve plane) /\
  (forall pr,
      firstBracketing closestPoint curve plane = Some pr ->
      computeH closestPoint curve plane
      = JS.Ok (interpolatedY origin (planeXAxis plane) xTarget pr
               - y closestPoint)) /\
  (firstBracketing closestPoint curve plane = None ->
   computeH closestPoint curve plane = JS.Ok 0) /\
  (Forall (fun xc => JS.lt xTarget xc = true) (curveX curve plane) \/
   Forall (fun xc => JS.lt xc xTarget = true) (curveX curve plane) ->
   computeH closestPoint curve plane = JS.Ok 0).
Proof.
  cbv zeta. rewrite computeH_find. repeat split.
  - intros pr ->. reflexivity.
  - intros ->. reflexivity.
  - intros H. now rewrite (outside_no_bracket _ _ _ H).
Qed.

(** [computeH] on the curve [(0,1,0), (2,3,0), (1,5,0)] in the plane
    [z = 0]: at [x = 1.5] the first segment brackets (ascending) and wins
    over the third point's fold-back; at [x = 5] nothing brackets. *)
Lemma C4_computeH_run :
  computeH (vec3 1.5 0.25 0) [vec3 0 1 0; vec3 2 3 0; vec3 1 5 0]
           (reshapePlane (vec3 (-5) 0 0) (vec3 5 0 0))
  = JS.Ok 2.25 /\
  computeH (vec3 5 0.25 0) [vec3 0 1 0; vec3 2 3 0; vec3 1 5 0]
           (reshapePlane (vec3 (-5) 0 0) (vec3 5 0 0))
  = JS.Ok 0.
Proof.
  split.
  - rewrite (proj1 (proj2 (C4_computeH_first_bracketing_pair
                      (vec3 1.5 0.25 0) (vec3 0 1 0) [vec3 2 3 0; vec3 1 5 0]
                      (reshapePlane (vec3 (-5) 0 0) (vec3 5 0 0))))
                   (vec3 0 1 0, vec3 2 3 0)) by (vm_compute; reflexivity).
    vm_compute. reflexivity.
  - apply (proj2 (proj2 (proj2 (C4_computeH_first_bracketing_pair
                      (vec3 5 0.25 0) (vec3 0 1 0) [vec3 2 3 0; vec3 1 5 0]
                      (reshapePlane (vec3 (-5) 0 0) (vec3 5 0 0)))))).
    right. vm_compute. repeat constructor.
Defined.

(** A bracket whose two ends compare equal gives the fraction [0/0]. *)
Lemma degenerate_bracket_NaN (origin planeX : Vector3) (xTarget : float)
      (pr : Vector3 * Vector3) :
  brackets origin planeX xTarget pr = true ->
  JS.eq (planeSpaceX origin planeX (fst pr))
        (planeSpaceX origin planeX (snd pr)) = true ->
  JS.NaN (interpolatedY origin planeX xTarget pr).
Proof.
  unfold brackets, interpolatedY, JS.eq.
  set (xa := planeSpaceX origin planeX (fst pr)).
  set (xb := planeSpaceX origin planeX (snd pr)).
  intros Hbr Heq.
  destruct (bracketsAscending xTarget xa xb) eqn:Ea.
  - unfold bracketsAscending, JS.le in Ea.
    apply andb_prop in Ea. destruct Ea as [H1 H2].
    destruct (FloatFacts.bracket_equal _ _ _ H1 H2 Heq) as [Ht Hb].
    apply FloatFacts.add_NaN_r, FloatFacts.mul_NaN_l.
    apply FloatFacts.div_zero_or_NaN; now apply FloatFacts.sub_equal.
  - cbn [orb] in Hbr. unfold bracketsDescending, JS.le in Hbr.
    apply andb_prop in Hbr. destruct Hbr as [H1 H2].
    rewrite FloatFacts.eqb_sym in Heq.
    destruct (FloatFacts.bracket_equal _ _ _ H1 H2 Heq) as [Ht Hb].
    apply FloatFacts.add_NaN_r, FloatFacts.mul_NaN_l.
    apply FloatFacts.div_zero_or_NaN; now apply FloatFacts.sub_equal.
Qed.

(** What [reshapeVertex] does with the value of [computeH]. *)
Lemma reshapeVertex_cases (h : Host) (plane : Plane) (curve : list Vector3)
      (v : Vector3) (hh : float) :
  computeH (projectPoint plane v) curve plane = JS.Ok hh ->
  reshapeVertex h plane curve v
  = JS.Ok (if JS.neq hh 0
           then vec3 (x v)
                     ((1 - weight h plane v) * y v + weight h plane v * hh)
                     (z v)
           else v).
Proof.
  intros E. unfold reshapeVertex. rewrite E. simpl.
  now destruct (JS.neq hh 0).
Qed.

(** The frame of [reshapeGround] on one vertex: X and Z are kept, a vertex
    whose [computeH] is [0] is untouched, any other gets the blend of
    line 128. *)
Lemma reshapeVertex_frame (h : Host) (plane : Plane) (curve : list Vector3)
      (v v' : Vector3) :
  reshapeVertex h plane curve v = JS.Ok v' ->
  x v' = x v /\ z v' = z v /\
  exists hh, computeH (projectPoint plane v) curve plane = JS.Ok hh /\
             (JS.eq hh 0 = true -> v' = v) /\
             (JS.eq hh 0 = false ->
              y v' = (1 - weight h plane v) * y v + weight h plane v * hh).
Proof.
  unfold reshapeVertex.
  destruct (computeH (projectPoint plane v) curve plane) as [hh|e] eqn:E;
    [|discriminate].
  simpl. unfold JS.neq, JS.eq.
  destruct (hh =? 0) eqn:E0; simpl; intros [= <-].
  - split; [reflexivity|]. split; [reflexivity|].
    exists hh. rewrite E0.
    split; [reflexivity|]. split; [reflexivity|discriminate].
  - split; [reflexivity|]. split; [reflexivity|].
    exists hh. rewrite E0.
    split; [reflexivity|]. split; [discriminate|reflexivity].
Qed.

(** C10: when the first bracketing pair of the silhouette curve has equal
    plane-local X coordinates, the bracketing fraction is [0/0] and
    [computeH] returns NaN; NaN passes the guard [h != 0], and the height
    written for the vertex is NaN, whatever the weight [w] and so whenever
    [w != 0]; X and Z are kept. *)
Theorem C10_degenerate_segment_writes_NaN
        (h : Host) (plane : Plane) (origin : Vector3) (rest : list Vector3)
        (v : Vector3) (pr : Vector3 * Vector3) :
  let curve := origin :: rest in
  let closestPoint := projectPoint plane v in
  let planeX := planeXAxis plane in
  firstBracketing closestPoint curve plane = Some pr ->
  JS.eq (planeSpaceX origin planeX (fst pr))
        (planeSpaceX origin planeX (snd pr)) = true ->
  (exists hh, computeH closestPoint curve plane = JS.Ok hh /\
              JS.NaN hh /\ JS.neq hh 0 = true) /\
  (exists y', reshapeVertex h plane curve v = JS.Ok (vec3 (x v) y' (z v)) /\
              JS.NaN y' /\
              y' = (1 - weight h plane v) * y v
                   + weight h plane v
                     * (interpolatedY origin planeX
                                      (targetX closestPoint curve plane) pr
                        - y closestPoint)).
Proof.
  cbv zeta. intros Hfirst Heq.
  pose proof (computeH_find (projectPoint plane v) origin rest plane) as Hc.
  rewrite Hfirst in Hc.
  assert (Hbr : brackets origin (planeXAxis plane)
                         (targetX (projectPoint plane v) (origin :: rest) plane)
                         pr = true).
  { unfold firstBracketing in Hfirst. apply find_some in Hfirst.
    exact (proj2 Hfirst). }
  pose proof (degenerate_bracket_NaN _ _ _ _ Hbr Heq) as Hnan.
  apply (FloatFacts.sub_NaN_l _ (y (projectPoint plane v))) in Hnan.
  assert (Hneq : JS.neq (interpolatedY origin (planeXAxis plane)
                           (targetX (projectPoint plane v) (origin :: rest) plane)
                           pr - y (projectPoint plane v)) 0 = true).
  { unfold JS.neq. now rewrite (FloatFacts.NaN_neq _ 0 Hnan). }
  split.
  - eexists. split; [exact Hc|]. split; assumption.
  - eexists. split; [|split; [|reflexivity]].
    + rewrite (reshapeVertex_cases h _ _ _ _ Hc). now rewrite Hneq.
    + now apply FloatFacts.add_NaN_r, FloatFacts.mul_NaN_r.
Qed.

(** The silhouette of a stroke that stands still, [(0,1,0), (0,1,0)], on
    the plane [z = 0], and the vertex [(0,0,3)], three units from the plane
    (weight [0.64]): its height becomes NaN. *)
Lemma C10_degenerate_run :
  weight Scene.host (reshapePlane (vec3 (-5) 0 0) (vec3 5 0 0)) (vec3 0 0 3)
  = 0.64 /\
  exists y',
    reshapeVertex Scene.host (reshapePlane (vec3 (-5) 0 0) (vec3 5 0 0))
                  [vec3 0 1 0; vec3 0 1 0] (vec3 0 0 3)
    = JS.Ok (vec3 0 y' 3) /\ JS.NaN y'.
Proof.
  split; [vm_compute; reflexivity|].
  destruct (proj2 (C10_degenerate_segment_writes_NaN
                     Scene.host (reshapePlane (vec3 (-5) 0 0) (vec3 5 0 0))
                     (vec3 0 1 0) [vec3 0 1 0] (vec3 0 0 3)
                     (vec3 0 1 0, vec3 0 1 0) eq_refl eq_refl))
    as (y' & Hv & Hn & _).
  exists y'. split; assumption.
Defined.

(** The falloff weight is [0] away from the plane: the vertex [(0,0,10)]
    is ten units from the plane [z = 0], twice the radius. *)
Example far_vertex_weight :
  distanceToPoint (reshapePlane (vec3 (-5) 0 0) (vec3 5 0 0)) (vec3 0 0 10) = 10
  /\ weight Scene.host (reshapePlane (vec3 (-5) 0 0) (vec3 5 0 0)) (vec3 0 0 10)
     = 0.
Proof. split; vm_compute; reflexivity. Qed.

(** C5 (code bug): a vertex whose falloff weight is [0] does not always keep
    its height.  [new Ground(20, 2)] reshaped by a stroke with a vertical
    segment, screen points [(0,1)] and [(0,2)], over the ground line from
    [(-5,0,0)] to [(5,0,0)], seen by the reference camera at [(0,0,10)]:
    the silhouette segment has equal plane-local X at both ends, [computeH]
    is NaN for the vertices with [x = 0], and the vertex [(0,0,10)], of
    weight [0], ends with height [(1 - 0) * 0 + 0 * NaN = NaN].  X and Z
    are kept, and the vertices with [x <> 0], for which [computeH] is [0],
    are untouched. *)
Theorem C5_zero_weight_vertex_becomes_NaN :
  exists g g',
    constructor 8 20 2 = Some g /\
    reshapeGround Scene.host g [vec2 0 1; vec2 0 2]
                  (vec3 (-5) 0 0) (vec3 5 0 0) (vec3 0 0 10) = JS.Ok g' /\
    vertices g =
    [ vec3 (-10) 0 (-10); vec3 (-10) 0 0; vec3 (-10) 0 10;
      vec3 0 0 (-10); vec3 0 0 0; vec3 0 0 10;
      vec3 10 0 (-10); vec3 10 0 0; vec3 10 0 10 ] /\
    vertices g' =
    [ vec3 (-10) 0 (-10); vec3 (-10) 0 0; vec3 (-10) 0 10;
      vec3 0 nan (-10); vec3 0 nan 0; vec3 0 nan 10;
      vec3 10 0 (-10); vec3 10 0 0; vec3 10 0 10 ] /\
    weight Scene.host (reshapePlane (vec3 (-5) 0 0) (vec3 5 0 0)) (vec3 0 0 10)
    = 0 /\
    JS.eq nan 0 = false.
Proof.
  do 2 eexists.
  split; [vm_compute; reflexivity|].
  split; [vm_compute; reflexivity|].
  repeat split; vm_compute; reflexivity.
Qed.




End ReshapeFacts.

(** ** Facts of triangle lists *)

Module MeshFacts.

Import Mesh.

Lemma flat_map_nested {A B C} (f : A -> list B) (g : B -> list C) (l : list A) :
  flat_map g (flat_map f l) = flat_map (fun a => flat_map g (f a)) l.
Proof.
  induction l as [|a l IH]; simpl; [reflexivity|].
  now rewrite flat_map_app, IH.
Qed.

Lemma map_flat_map {A B C} (f : A -> list B) (g : B -> C) (l : list A) :
  map g (flat_map f l) = flat_map (fun a => map g (f a)) l.
Proof.
  induction l as [|a l IH]; simpl; [reflexivity|].
  now rewrite map_app, IH.
Qed.

(** Blocks of whole triangles can be read one block at a time. *)
Lemma triangles_blocks {X A} (f : X -> list A) (g : X -> list (A * A * A)) :
  (forall x rest, triangles (f x ++ rest) = g x ++ triangles rest) ->
  forall l rest,
    triangles (flat_map f l ++ rest) = flat_map g l ++ triangles rest.
Proof.
  intros Hf. induction l as [|a l IH]; intros rest; simpl; [reflexivity|].
  now rewrite <- !app_assoc, Hf, IH.
Qed.

Lemma triangles_map {A B} (f : A -> B) :
  forall l, triangles (map f l)
            = map (fun t => let '(a, b, c) := t in (f a, f b, f c)) (triangles l).
Proof.
  fix IH 1. intros [|a [|b [|c rest]]]; simpl; try reflexivity.
  now rewrite IH.
Qed.

Lemma edges_map {A B} (f : A -> B) (l : list A) :
  edges (map f l) = map (fun e => (f (fst e), f (snd e))) (edges l).
Proof.
  unfold edges. rewrite triangles_map, map_flat_map.
  induction (triangles l) as [|[[a b] c] ts IH]; simpl; [reflexivity|].
  now rewrite IH.
Qed.

(** Lists produced from different seeds without a common element. *)
Lemma NoDup_flat_map {A B} (f : A -> list B) (l : list A) :
  NoDup l ->
  (forall a, In a l -> NoDup (f a)) ->
  (forall a a' b, In a l -> In a' l -> In b (f a) -> In b (f a') -> a = a') ->
  NoDup (flat_map f l).
Proof.
  induction l as [|a l IH]; intros Hl Hf Hd; simpl; [constructor|].
  apply NoDup_cons_iff in Hl. destruct Hl as [Ha Hl].
  apply NoDup_app.
  - apply Hf. now left.
  - apply IH; [assumption| |].
    + intros; apply Hf; now right.
    + intros a1 a2 b H1 H2. apply Hd; now right.
  - intros b Hb Hin. apply in_flat_map in Hin. destruct Hin as (a' & Ha' & Hb').
    assert (a = a') by (apply (Hd a a' b); [now left|now right|assumption..]).
    subst a'. contradiction.
Qed.

End MeshFacts.

(** ** More on the ground grid *)

Module GridFacts.

Import Ground.

Lemma rowCol_div (segments r c : nat) :
  c <= segments -> (r * (segments + 1) + c) / (segments + 1) = r.
Proof.
  intros Hle. rewrite Nat.div_add_l by lia.
  rewrite Nat.div_small by lia. lia.
Qed.

Lemma rowCol_mod (segments r c : nat) :
  c <= segments -> (r * (segments + 1) + c) mod (segments + 1) = c.
Proof.
  intros Hle. rewrite Nat.add_comm, Nat.Div0.mod_add.
  apply Nat.mod_small. lia.
Qed.

Lemma rowCol_inj (segments : nat) (p q : nat * nat) :
  snd p <= segments -> snd q <= segments ->
  rowCol segments p = rowCol segments q -> p = q.
Proof.
  destruct p as [r c], q as [r' c']. unfold rowCol, convertRowColToIndex.
  simpl. intros Hc Hc' E. f_equal.
  - rewrite <- (rowCol_div segments r c Hc), E. now apply rowCol_div.
  - rewrite <- (rowCol_mod segments r c Hc), E. now apply rowCol_mod.
Qed.

(** Row-major numbering can be read back: with [col <= segments] the index
    determines the row and the column, so two grid positions share an index
    only if they are the same position. *)
Theorem convertRowColToIndex_inverse (segments row col : nat) :
  col <= segments ->
  convertRowColToIndex segments row col / (segments + 1) = row /\
  convertRowColToIndex segments row col mod (segments + 1) = col /\
  forall row' col',
    col' <= segments ->
    convertRowColToIndex segments row' col' = convertRowColToIndex segments row col ->
    row' = row /\ col' = col.
Proof.
  intros Hc. unfold convertRowColToIndex.
  split; [now apply rowCol_div|]. split; [now apply rowCol_mod|].
  intros row' col' Hc' E.
  assert (H : (row', col') = (row, col))
    by (apply (rowCol_inj segments); assumption).
  now injection H.
Qed.

(** Position [(3, 7)] of a grid of 10 segments is index 40, and back. *)
Lemma convertRowColToIndex_inverse_run :
  convertRowColToIndex 10 3 7 = 40 /\ 40 / 11 = 3 /\ 40 mod 11 = 7.
Proof.
  destruct (convertRowColToIndex_inverse 10 3 7) as (Hd & Hm & _);
    [repeat constructor|].
  split; [reflexivity|]. split; [exact Hd|exact Hm].
Defined.

(** Whatever the vertex loops produce, a finished [new Ground(size,
    segments)] keeps [segments], has six indices per grid cell, every index
    at most [(segments+1)^2 - 1], and one normal per vertex. *)
Theorem constructor_index_buffer (fuel : nat) (size : float) (n : nat) (g : t) :
  constructor fuel size n = Some g ->
  segments g = n /\
  List.length (indices g) = 6 * (n * n) /\
  Forall (fun k => k <= (n + 1) * (n + 1) - 1) (indices g) /\
  List.length (normals g) = List.length (vertices g).
Proof.
  unfold constructor.
  destruct (grid_vertices fuel size n) as [[vs ns]|] eqn:E; [|discriminate].
  intros [= <-]. simpl.
  split; [reflexivity|].
  split; [apply GroundFacts.grid_indices_length|].
  split; [apply GroundFacts.grid_indices_range|].
  destruct (GroundFacts.grid_vertices_square _ _ _ _ _ E) as (xs & _ & _ & _ & H).
  exact H.
Qed.

(** [new Ground(10, 2)]: 24 indices, none above 8, nine normals. *)
Lemma constructor_index_buffer_run :
  exists g, constructor 8 10 2 = Some g /\
            List.length (indices g) = 24 /\
            Forall (fun k => k <= 8) (indices g) /\
            List.length (normals g) = List.length (vertices g).
Proof.
  eexists. split; [vm_compute; reflexivity|].
  destruct (constructor_index_buffer 8 10 2 _ eq_refl) as (_ & Hl & Hr & Hn).
  split; [exact Hl|]. split; [exact Hr|exact Hn].
Defined.

(** A finished [new Ground(size, segments)] has a square vertex grid: with
    [xs] the values its loop variable takes (from [-size/2], by steps of
    [size/segments], while [<= size/2]), the vertices are [(i, 0, j)] for
    [i] in [xs] and [j] in [xs], row by row; each has [Y = 0] and its X and
    its Z among those values. *)
Theorem constructor_vertex_grid (fuel : nat) (size : float) (n : nat) (g : t) :
  constructor fuel size n = Some g ->
  exists xs,
    JS.for_le_values fuel (- size / 2)%float (size / 2)%float
                     (size / JS.of_nat n)%float = Some xs /\
    vertices g = flat_map (fun i => map (fun j => vec3 i 0 j) xs) xs /\
    List.length (vertices g) = List.length xs * List.length xs /\
    Forall (fun v => y v = 0%float /\ In (x v) xs /\ In (z v) xs) (vertices g).
Proof.
  unfold constructor.
  destruct (grid_vertices fuel size n) as [[vs ns]|] eqn:E; [|discriminate].
  intros [= <-]. simpl.
  destruct (GroundFacts.grid_vertices_square _ _ _ _ _ E) as (xs & Hxs & Hv & Hl & _).
  exists xs. split; [exact Hxs|]. split; [exact Hv|]. split; [exact Hl|].
  rewrite Hv. apply Forall_forall. intros v Hin.
  apply in_flat_map in Hin. destruct Hin as (i & Hi & Hin).
  apply in_map_iff in Hin. destruct Hin as (j & <- & Hj).
  simpl. auto.
Qed.

(** [new Ground(10, 2)]: the loop variable takes [-5, 0, 5]. *)
Lemma constructor_vertex_grid_run :
  exists g, constructor 8 10 2 = Some g /\
            vertices g =
            flat_map (fun i => map (fun j => vec3 i 0 j) [-5; 0; 5]%float)
                     [-5; 0; 5]%float.
Proof.
  eexists. split; [vm_compute; reflexivity|].
  destruct (constructor_vertex_grid 8 10 2 _ eq_refl) as (xs & Hxs & Hv & _).
  vm_compute in Hxs. injection Hxs as <-. exact Hv.
Defined.

(** Reading a list of blocks of one length at block [r], offset [c]. *)
Lemma nth_error_flat_map_const {A B} (f : A -> list B) (m : nat) :
  (forall a, List.length (f a) = m) ->
  forall (l : list A) (r c : nat) (a : A),
    c < m -> nth_error l r = Some a ->
    nth_error (flat_map f l) (r * m + c) = nth_error (f a) c.
Proof.
  intros Hf. induction l as [|a0 l IH]; intros r c a Hc Hr.
  - destruct r; discriminate.
  - destruct r as [|r]; simpl in Hr.
    + injection Hr as ->. simpl. apply nth_error_app1. now rewrite Hf.
    + cbn [flat_map]. rewrite nth_error_app2 by (rewrite Hf; simpl; lia).
      rewrite Hf. replace (S r * m + c - m) with (r * m + c) by (simpl; lia).
      now apply IH.
Qed.

(** Where the vertex of a grid position is.  When the loop variable of a
    finished [new Ground(size, segments)] has taken [segments + 1] values
    [xs], the vertex buffer holds at index
    [convertRowColToIndex(row, col)] the vertex [(xs[row], 0, xs[col])],
    for every [row] and [col] up to [segments], and every index of the
    index buffer addresses a vertex. *)
Theorem constructor_vertex_at (fuel : nat) (size : float) (n : nat) (g : t)
        (xs : list float) (row col : nat) (xr xc : float) :
  constructor fuel size n = Some g ->
  JS.for_le_values fuel (- size / 2)%float (size / 2)%float
                   (size / JS.of_nat n)%float = Some xs ->
  List.length xs = n + 1 ->
  nth_error xs row = Some xr ->
  nth_error xs col = Some xc ->
  nth_error (vertices g) (convertRowColToIndex (segments g) row col)
  = Some (vec3 xr 0 xc) /\
  Forall (fun k => k < List.length (vertices g)) (indices g).
Proof.
  unfold constructor.
  destruct (grid_vertices fuel size n) as [[vs ns]|] eqn:E; [|discriminate].
  intros [= <-] Hxs Hlen Hr Hc. cbn [segments vertices indices].
  destruct (GroundFacts.grid_vertices_square _ _ _ _ _ E)
    as (xs' & Hxs' & Hv & Hl & _).
  rewrite Hxs in Hxs'. injection Hxs' as <-.
  split.
  - rewrite Hv. unfold convertRowColToIndex.
    rewrite (nth_error_flat_map_const _ (n + 1)) with (a := xr).
    + now rewrite nth_error_map, Hc.
    + intros a. now rewrite length_map.
    + rewrite <- Hlen. apply nth_error_Some. congruence.
    + exact Hr.
  - assert (Hvs : List.length vs = (n + 1) * (n + 1)) 
      by (rewrite Hl; unfold JS.number; now rewrite Hlen).
    eapply Forall_impl; [|apply GroundFacts.grid_indices_range].
    simpl. intros k Hk. rewrite Hvs. nia.
Qed.

(** [new Ground(10, 2)]: grid position [(1, 2)] is vertex 5, at
    [(0, 0, 5)]. *)
Lemma constructor_vertex_at_run :
  exists g, constructor 8 10 2 = Some g /\
            nth_error (vertices g) 5 = Some (vec3 0 0 5).
Proof.
  eexists. split; [vm_compute; reflexivity|].
  exact (proj1 (constructor_vertex_at 8 10 2 _ [-5; 0; 5]%float 1 2 0 5
                  eq_refl eq_refl eq_refl eq_refl eq_refl)).
Defined.

(** *** A step of zero *)

(** Adding a zero to the loop variable does not change how it compares. *)
Lemma add_zero_le (a zr b : float) :
  JS.Zero zr -> ((a + zr <=? b) = (a <=? b))%float.
Proof.
  unfold JS.Zero. rewrite !FloatAxioms.leb_spec, FloatAxioms.add_spec.
  destruct (Prim2SF zr) as [sz| | |]; try contradiction. intros _.
  destruct (Prim2SF a) as [sa|sa| |sa ma ea]; try reflexivity.
  destruct sa, sz, (Prim2SF b) as [sb|sb| |sb mb eb]; reflexivity.
Qed.

Lemma for_le_zero_step {S} (body : float -> S -> option S) (hi inc : float) :
  JS.Zero inc ->
  forall fuel i s, JS.le i hi = true -> JS.for_le fuel i hi inc body s = None.
Proof.
  intros Hz. induction fuel as [|fuel IH]; intros i s Hle; simpl.
  - reflexivity.
  - rewrite Hle. destruct (body i s) as [s'|]; [|reflexivity].
    apply IH. unfold JS.le. now rewrite add_zero_le.
Qed.

(** A step of zero never ends the loops.  When [size / segments] is a zero
    (as for [size = 0], or a [size] so small that the quotient underflows)
    and [-size/2 <= size/2], the loop variable of [new Ground(size,
    segments)] never passes [size/2]: no step budget lets the constructor
    return. *)
Theorem constructor_zero_step_never_returns (size : float) (n : nat) :
  JS.Zero (size / JS.of_nat n)%float ->
  JS.le (- size / 2)%float (size / 2)%float = true ->
  forall fuel, constructor fuel size n = None.
Proof.
  intros Hz Hle fuel. unfold constructor, grid_vertices.
  now rewrite (for_le_zero_step _ _ _ Hz fuel _ _ Hle).
Qed.

(** [new Ground(0, 4)] has not returned after a thousand steps. *)
Lemma constructor_zero_step_run : constructor 1000 0 4 = None.
Proof.
  apply (constructor_zero_step_never_returns 0 4).
  - vm_compute. exact I.
  - vm_compute. reflexivity.
Defined.

(** *** The winding of the grid *)

Lemma grid_indices_corners (n : nat) :
  grid_indices n = map (rowCol n) (gridCorners n).
Proof.
  rewrite GroundFacts.grid_indices_flat. unfold gridCorners.
  rewrite MeshFacts.map_flat_map. apply flat_map_ext. intros i.
  rewrite MeshFacts.map_flat_map. apply flat_map_ext. intros j. reflexivity.
Qed.

Lemma gridCorners_triangles (n : nat) :
  Mesh.triangles (gridCorners n)
  = flat_map (fun i => flat_map (fun j => Mesh.triangles (cellCorners i j))
                                (seq 0 n))
             (seq 0 n).
Proof.
  unfold gridCorners.
  rewrite <- (app_nil_r (flat_map _ (seq 0 n))) at 1.
  rewrite (MeshFacts.triangles_blocks
             (fun i => flat_map (cellCorners i) (seq 0 n))
             (fun i => flat_map (fun j => Mesh.triangles (cellCorners i j))
                                (seq 0 n))).
  - apply app_nil_r.
  - intros i rest.
    apply (MeshFacts.triangles_blocks
             (cellCorners i) (fun j => Mesh.triangles (cellCorners i j))).
    reflexivity.
Qed.

Lemma gridCorners_edges (n : nat) :
  Mesh.edges (gridCorners n)
  = flat_map (fun i => flat_map (fun j => Mesh.edges (cellCorners i j)) (seq 0 n))
             (seq 0 n).
Proof.
  unfold Mesh.edges at 1. rewrite gridCorners_triangles.
  rewrite MeshFacts.flat_map_nested. apply flat_map_ext. intros i.
  apply MeshFacts.flat_map_nested.
Qed.

Ltac cell_edge H :=
  unfold Mesh.edges, cellCorners in H; simpl in H;
  repeat (destruct H as [H|H]; [symmetry in H|]); try contradiction.

Lemma gridCorners_edges_in (n : nat) (e : (nat * nat) * (nat * nat)) :
  In e (Mesh.edges (gridCorners n)) ->
  exists i j, i < n /\ j < n /\ In e (Mesh.edges (cellCorners i j)).
Proof.
  rewrite gridCorners_edges. intros H.
  apply in_flat_map in H. destruct H as (i & Hi & H).
  apply in_flat_map in H. destruct H as (j & Hj & H).
  apply in_seq in Hi. apply in_seq in Hj.
  exists i, j. repeat split; [lia|lia|assumption].
Qed.

Lemma cell_edges_disjoint (i j i' j' : nat) (e : (nat * nat) * (nat * nat)) :
  In e (Mesh.edges (cellCorners i j)) ->
  In e (Mesh.edges (cellCorners i' j')) -> i = i' /\ j = j'.
Proof.
  intros H H'. cell_edge H; cell_edge H'; subst e;
    inversion H'; lia.
Qed.

Lemma cell_edges_NoDup (i j : nat) : NoDup (Mesh.edges (cellCorners i j)).
Proof.
  unfold Mesh.edges, cellCorners. simpl.
  repeat (apply NoDup_cons; [simpl; intros H;
    repeat (destruct H as [H|H]; [inversion H; lia|]); exact H|]).
  apply NoDup_nil.
Qed.

Lemma gridCorners_edges_NoDup (n : nat) : NoDup (Mesh.edges (gridCorners n)).
Proof.
  rewrite gridCorners_edges.
  apply MeshFacts.NoDup_flat_map.
  - apply seq_NoDup.
  - intros i _. apply MeshFacts.NoDup_flat_map.
    + apply seq_NoDup.
    + intros j _. apply cell_edges_NoDup.
    + intros j j' e _ _ H H'. now destruct (cell_edges_disjoint _ _ _ _ _ H H').
  - intros i i' e _ _ H H'.
    apply in_flat_map in H. destruct H as (j & _ & H).
    apply in_flat_map in H'. destruct H' as (j' & _ & H').
    now destruct (cell_edges_disjoint _ _ _ _ _ H H').
Qed.

(** The grid is consistently wound.  Read three indices at a time, the index
    buffer of [segments] rows and columns is [2 * segments^2] triangles;
    each has three different corners; and no directed edge (a corner and the
    next one in the triangle's order) occurs twice, so two triangles that
    share an edge traverse it in opposite directions and all faces look to
    the same side. *)
Theorem grid_indices_winding (n : nat) :
  List.length (Mesh.triangles (grid_indices n)) = 2 * (n * n) /\
  Forall Mesh.proper (Mesh.triangles (grid_indices n)) /\
  NoDup (Mesh.edges (grid_indices n)).
Proof.
  rewrite grid_indices_corners. split; [|split].
  - rewrite MeshFacts.triangles_map, length_map, gridCorners_triangles.
    rewrite (GroundFacts.flat_map_length_const _ (n * 2)).
    + rewrite length_seq. lia.
    + intros i. rewrite (GroundFacts.flat_map_length_const _ 2).
      * now rewrite length_seq.
      * reflexivity.
  - rewrite MeshFacts.triangles_map, gridCorners_triangles.
    apply Forall_forall. intros t Ht.
    apply in_map_iff in Ht. destruct Ht as ([[a b] c] & <- & Ht).
    apply in_flat_map in Ht. destruct Ht as (i & _ & Ht).
    apply in_flat_map in Ht. destruct Ht as (j & Hj & Ht).
    apply in_seq in Hj.
    unfold cellCorners in Ht. simpl in Ht.
    destruct Ht as [Ht|[Ht|[]]]; injection Ht as <- <- <-;
      unfold Mesh.proper, rowCol, convertRowColToIndex; cbn [fst snd]; nia.
  - rewrite MeshFacts.edges_map.
    apply NoDup_map_NoDup_ForallPairs; [|apply gridCorners_edges_NoDup].
    intros e e' He He' E.
    apply gridCorners_edges_in in He. destruct He as (i & j & Hi & Hj & He).
    apply gridCorners_edges_in in He'. destruct He' as (i' & j' & Hi' & Hj' & He').
    injection E as E1 E2.
    destruct e as [p q], e' as [p' q']. simpl in E1, E2.
    assert (Hp : p = p').
    { apply (rowCol_inj n); [| |assumption];
        [cell_edge He; inversion He|cell_edge He'; inversion He']; simpl; lia. }
    assert (Hq : q = q').
    { apply (rowCol_inj n); [| |assumption];
        [cell_edge He; inversion He|cell_edge He'; inversion He']; simpl; lia. }
    now subst.
Qed.

End GridFacts.

(** ** More on the height-field deformer *)

Module DeformFacts.

Import Ground.
Local Open Scope float_scope.

(** A loop over a body that never throws, with what it relates. *)
Lemma mapM_Forall2 {A B} (f : A -> JS.result B) (R : A -> B -> Prop)
      (xs : list A) :
  (forall a, In a xs -> exists b, f a = JS.Ok b /\ R a b) ->
  exists ys, JS.mapM f xs = JS.Ok ys /\ Forall2 R xs ys.
Proof.
  induction xs as [|a xs IH]; intros H; simpl.
  - exists []. split; [reflexivity|constructor].
  - destruct (H a (or_introl eq_refl)) as (b & E & Hab).
    destruct IH as (ys & Eys & Hys); [intros; apply H; now right|].
    exists (b :: ys). rewrite E, Eys. split; [reflexivity|now constructor].
Qed.

Lemma mapM_unchanged {A} (f : A -> JS.result A) (xs : list A) :
  (forall a, In a xs -> f a = JS.Ok a) -> JS.mapM f xs = JS.Ok xs.
Proof.
  induction xs as [|a xs IH]; intros H; simpl; [reflexivity|].
  rewrite (H a (or_introl eq_refl)). simpl.
  rewrite IH by (intros; apply H; now right). reflexivity.
Qed.

Lemma silhouette_cons (h : Host) p ps plane (camera : Camera h) :
  silhouette h (p :: ps) plane camera
  = sample h plane camera p :: silhouette h ps plane camera.
Proof. now rewrite !SilhouetteFacts.silhouette_map. Qed.

(** A vertex for which no segment brackets is returned as it is. *)
Lemma reshapeVertex_no_bracket (h : Host) (plane : Plane) (origin : Vector3)
      (rest : list Vector3) (v : Vector3) :
  firstBracketing (projectPoint plane v) (origin :: rest) plane = None ->
  reshapeVertex h plane (origin :: rest) v = JS.Ok v.
Proof.
  intros Hn.
  rewrite (ReshapeFacts.reshapeVertex_cases h plane _ v 0).
  - reflexivity.
  - now rewrite ReshapeFacts.computeH_find, Hn.
Qed.

(** The whole of [reshapeGround] on a stroke with at least one sample: the
    call does not throw; the segment count and the index buffer are kept,
    and so is the number of vertices; every vertex keeps its X and its Z; a
    vertex whose [computeH] compares equal to [0] is kept as it is, and any
    other gets the height [(1 - w) * y + w * h] of line 128. *)
Theorem reshapeGround_frame (h : Host) (g : t) (p : Vector2)
        (ps : list Vector2) (groundStartPoint groundEndPoint : Vector3)
        (camera : Camera h) :
  let plane := reshapePlane groundStartPoint groundEndPoint in
  let curve := silhouette h (p :: ps) plane camera in
  exists g',
    reshapeGround h g (p :: ps) groundStartPoint groundEndPoint camera
    = JS.Ok g' /\
    segments g' = segments g /\ indices g' = indices g /\
    List.length (vertices g') = List.length (vertices g) /\
    Forall2 (fun v v' =>
               x v' = x v /\ z v' = z v /\
               exists hh,
                 computeH (projectPoint plane v) curve plane = JS.Ok hh /\
                 (JS.eq hh 0 = true -> v' = v) /\
                 (JS.eq hh 0 = false ->
                  y v' = (1 - weight h plane v) * y v + weight h plane v * hh))
            (vertices g) (vertices g').
Proof.
  cbv zeta. unfold reshapeGround.
  set (plane := reshapePlane groundStartPoint groundEndPoint).
  rewrite silhouette_cons.
  set (origin := sample h plane camera p).
  set (rest := silhouette h ps plane camera).
  destruct (mapM_Forall2
              (reshapeVertex h plane (origin :: rest))
              (fun v v' =>
                 x v' = x v /\ z v' = z v /\
                 exists hh,
                   computeH (projectPoint plane v) (origin :: rest) plane
                   = JS.Ok hh /\
                   (JS.eq hh 0 = true -> v' = v) /\
                   (JS.eq hh 0 = false ->
                    y v' = (1 - weight h plane v) * y v
                           + weight h plane v * hh))
              (vertices g)) as (vs & E & Hvs).
  - intros v _.
    destruct (reshapeVertex h plane (origin :: rest) v) as [v'|e] eqn:Ev.
    + exists v'. split; [reflexivity|].
      destruct (ReshapeFacts.reshapeVertex_frame h plane _ v v' Ev)
        as (Hx & Hz & hh & Hh & H0 & H1).
      split; [exact Hx|]. split; [exact Hz|]. now exists hh.
    + exfalso. revert Ev.
      rewrite (ReshapeFacts.reshapeVertex_cases h plane _ v _
                 (ReshapeFacts.computeH_find _ _ _ _)).
      discriminate.
  - exists (mk (segments g) vs (normals g) (indices g)).
    rewrite E. cbn [segments vertices indices].
    split; [reflexivity|]. split; [reflexivity|]. split; [reflexivity|].
    split; [symmetry; exact (Forall2_length Hvs)|exact Hvs].
Qed.

(** [reshapeGround] with an empty stroke: the silhouette curve is empty,
    [computeH] reads [silhouetteCurve[0]] at the first vertex and the call
    throws a [TypeError] before any height is written; only on a ground
    without a vertex does the call return, with nothing to write. *)
Theorem reshapeGround_empty_stroke (h : Host) (g : t)
        (groundStartPoint groundEndPoint : Vector3) (camera : Camera h) :
  match vertices g with
  | [] =>
      exists g',
        reshapeGround h g [] groundStartPoint groundEndPoint camera = JS.Ok g'
        /\ sameBuffers g g'
  | _ :: _ =>
      reshapeGround h g [] groundStartPoint groundEndPoint camera
      = JS.Throw JS.TypeError
  end.
Proof.
  destruct g as [n vs ns idx]. unfold reshapeGround. simpl.
  destruct vs as [|v vs]; [|reflexivity].
  eexists. split; [reflexivity|]. repeat split.
Qed.

Lemma reshapeGround_unchanged (h : Host) (g : t) (p : Vector2)
      (ps : list Vector2) (groundStartPoint groundEndPoint : Vector3)
      (camera : Camera h) :
  (forall v, In v (vertices g) ->
     reshapeVertex h (reshapePlane groundStartPoint groundEndPoint)
       (silhouette h (p :: ps) (reshapePlane groundStartPoint groundEndPoint)
                   camera) v
     = JS.Ok v) ->
  exists g',
    reshapeGround h g (p :: ps) groundStartPoint groundEndPoint camera
    = JS.Ok g' /\ sameBuffers g g'.
Proof.
  intros H. unfold reshapeGround. rewrite (mapM_unchanged _ _ H).
  eexists. split; [reflexivity|]. repeat split.
Qed.

(** A stroke of a single sample deforms nothing: the curve has one point
    and no segment, [computeH] falls out of its loop with [0] for every
    vertex, the call returns and the position buffer is as it was. *)
Theorem reshapeGround_single_sample (h : Host) (g : t) (p : Vector2)
        (groundStartPoint groundEndPoint : Vector3) (camera : Camera h) :
  exists g',
    reshapeGround h g [p] groundStartPoint groundEndPoint camera = JS.Ok g' /\
    sameBuffers g g'.
Proof.
  apply reshapeGround_unchanged. intros v _. rewrite silhouette_cons.
  now apply reshapeVertex_no_bracket.
Qed.

(** A stroke that passes no vertex leaves the ground as it was: when, for
    every vertex, the plane-local X of its projection onto the reshape
    plane is strictly below every plane-local X of the curve, or strictly
    above every one, no height is written. *)
Theorem reshapeGround_off_curve (h : Host) (g : t) (p : Vector2)
        (ps : list Vector2) (groundStartPoint groundEndPoint : Vector3)
        (camera : Camera h) :
  let plane := reshapePlane groundStartPoint groundEndPoint in
  let curve := silhouette h (p :: ps) plane camera in
  Forall (fun v =>
            let xTarget := targetX (projectPoint plane v) curve plane in
            Forall (fun xc => JS.lt xTarget xc = true) (curveX curve plane) \/
            Forall (fun xc => JS.lt xc xTarget = true) (curveX curve plane))
         (vertices g) ->
  exists g',
    reshapeGround h g (p :: ps) groundStartPoint groundEndPoint camera
    = JS.Ok g' /\ sameBuffers g g'.
Proof.
  cbv zeta. intros Hout. apply reshapeGround_unchanged.
  intros v Hv. rewrite Forall_forall in Hout. specialize (Hout v Hv).
  rewrite silhouette_cons in *.
  apply reshapeVertex_no_bracket.
  now apply ReshapeFacts.outside_no_bracket.
Qed.

(** The 3 x 3 ground of [new Ground(10, 2)], with vertices at
    [x = -5, 0, 5], and a stroke seen from [(0, 0, 10)] whose curve runs
    from [x = 20] to [x = 25] in the plane [z = 0]: every vertex is left
    of the curve, and the ground is returned unchanged. *)
Lemma reshapeGround_off_curve_run :
  match constructor 8 10 2 with
  | Some g =>
      exists g',
        reshapeGround Scene.host g [vec2 20 1; vec2 25 3]
                      (vec3 (-5) 0 0) (vec3 5 0 0) (vec3 0 0 10)
        = JS.Ok g' /\ sameBuffers g g'
  | None => False
  end.
Proof.
  destruct (constructor 8 10 2) as [g|] eqn:E; vm_compute in E;
    [|discriminate].
  injection E as <-.
  apply (reshapeGround_off_curve Scene.host).
  vm_compute.
  repeat (apply Forall_cons; [left; repeat constructor|]).
  apply Forall_nil.
Defined.

(** The falloff weight of line 124 is never negative: it is NaN or
    compares [>= 0], whatever [Math.pow] returns. *)
Theorem weight_not_negative (h : Host) (plane : Plane) (v : Vector3) :
  is_nan (weight h plane v) = true \/ JS.ge (weight h plane v) 0 = true.
Proof.
  unfold weight, JS.Math_max, JS.ge.
  set (q := 1 - Math_pow h (distanceToPoint plane v / 5) 2).
  change (is_nan 0) with false. cbn [orb].
  destruct (is_nan q) eqn:Hn.
  - now left.
  - right. destruct (0 <? q) eqn:Hlt.
    + revert Hlt.
      rewrite FloatAxioms.ltb_spec, FloatAxioms.leb_spec. unfold SFltb, SFleb.
      now destruct (SFcompare (Prim2SF 0) (Prim2SF q)) as [[]|].
    + destruct (q <? 0); reflexivity.
Qed.

End DeformFacts.

(** ** More on the ribbon *)

Module StrokeFacts.

Import Billboard.
Local Open Scope float_scope.

Lemma vec2_eta (p : Vector2) : vec2 (x2 p) (y2 p) = p.
Proof. now destruct p. Qed.

Lemma vec3_eta (v : Vector3) : vec3 (x v) (y v) (z v) = v.
Proof. now destruct v. Qed.

(** After a throw the remaining calls are not made. *)
Lemma addPoints_thrown (h : Host) (ps : list Vector2) (e : JS.error) :
  fold_left (fun r p => b' <- r ;; addNewPoint h b' p) ps (JS.Throw e)
  = JS.Throw e.
Proof. induction ps as [|p ps IH]; simpl; [reflexivity|exact IH]. Qed.

Lemma addPoints_cons (h : Host) (b : t) (p : Vector2) (ps : list Vector2) :
  addPoints h b (p :: ps) = (b1 <- addNewPoint h b p ;; addPoints h b1 ps).
Proof.
  unfold addPoints. simpl.
  destruct (addNewPoint h b p) as [b1|e]; simpl;
    [reflexivity|apply addPoints_thrown].
Qed.

(** A property kept by every accepted or rejected call is kept by a run. *)
Lemma addPoints_invariant (h : Host) (I : t -> Prop) (ps : list Vector2) :
  (forall b p b', In p ps -> I b -> addNewPoint h b p = JS.Ok b' -> I b') ->
  forall b b', I b -> addPoints h b ps = JS.Ok b' -> I b'.
Proof.
  induction ps as [|p ps IH]; intros Hstep b b' Hb E.
  - injection E as <-. exact Hb.
  - rewrite addPoints_cons in E.
    destruct (addNewPoint h b p) as [b1|e] eqn:E1; simpl in E; [|discriminate].
    apply (IH (fun b0 p0 b0' Hin => Hstep b0 p0 b0' (or_intror Hin)) b1 b');
      [|exact E].
    apply (Hstep b p b1); [now left|exact Hb|exact E1].
Qed.

Lemma lastPoint_snoc (b : t) (e : Vector2) :
  lastPoint b = Some e -> exists init, screenPath b = init ++ [e].
Proof.
  unfold lastPoint. destruct (screenPath b) as [|a l] using rev_ind.
  - discriminate.
  - rewrite length_app. simpl.
    replace (List.length l + 1 - 1)%nat with (List.length l) by lia.
    rewrite nth_error_app2 by lia. rewrite Nat.sub_diag. simpl.
    intros [= <-]. now exists l.
Qed.

(** What a call that returns has done: nothing, or the pushes of lines
    259-268. *)
Lemma addNewPoint_inv (h : Host) (b : t) (p : Vector2) (b' : t) :
  addNewPoint h b p = JS.Ok b' ->
  exists e,
    lastPoint b = Some e /\
    ((JS.gt (Vector2_distanceTo (vec2 (x2 p) (y2 p)) e) (strokeWidth b / 2)
      = false /\ b' = b) \/
     (JS.gt (Vector2_distanceTo (vec2 (x2 p) (y2 p)) e) (strokeWidth b / 2)
      = true /\
      screenPath b' = screenPath b ++ [vec2 (x2 p) (y2 p)] /\
      (exists v1 v2, vertices b' = vertices b ++ [v1; v2] /\
                     z v1 = (-0.999) /\ z v2 = (-0.999)) /\
      indices b' = indices b ++ newIndices b /\
      strokeWidth b' = strokeWidth b /\ worldOrigin b' = worldOrigin b /\
      position b' = position b /\ rotation b' = rotation b /\
      mesh_matrix b' = mesh_matrix b)).
Proof.
  unfold addNewPoint. destruct (lastPoint b) as [e|]; [|discriminate].
  intros E. exists e. split; [reflexivity|].
  destruct (JS.gt _ _); injection E as <-.
  - right. split; [reflexivity|]. simpl. split; [reflexivity|].
    split.
    + do 2 eexists. rewrite <- app_assoc. simpl.
      split; [reflexivity|]. split; reflexivity.
    + rewrite <- app_assoc. repeat split.
  - left. split; reflexivity.
Qed.

Lemma spaced_snoc (w : float) (init : list Vector2) (e q : Vector2) :
  spaced w (init ++ [e]) ->
  JS.gt (Vector2_distanceTo q e) (w / 2) = true ->
  spaced w ((init ++ [e]) ++ [q]).
Proof.
  induction init as [|a init IH]; intros Hs Hgt.
  - simpl. split; [exact Hgt|exact I].
  - destruct init as [|c init'].
    + simpl in *. destruct Hs as [H1 _].
      split; [exact H1|]. split; [exact Hgt|exact I].
    + change (spaced w (a :: ((c :: init') ++ [e]) ++ [q])).
      change (spaced w (a :: (c :: init') ++ [e])) in Hs.
      simpl in Hs. destruct Hs as [H1 H2].
      simpl. split; [exact H1|]. apply IH; assumption.
Qed.

(** The accepted path of a new billboard after any run of [addNewPoint]
    calls: no call throws; the stroke width is the constructor's; the path
    starts at the constructor's point; every later point is one of the
    points passed in and lies farther than [strokeWidth / 2] from the point
    accepted before it. *)
Theorem ribbon_spacing (h : Host) (deviceCoords : Vector2)
        (worldOrigin : Vector3) (width : float) (ps : list Vector2) :
  exists b,
    addPoints h (constructor deviceCoords worldOrigin width) ps = JS.Ok b /\
    strokeWidth b = width /\
    hd_error (screenPath b) = Some deviceCoords /\
    spaced width (screenPath b) /\
    incl (screenPath b) (deviceCoords :: ps).
Proof.
  destruct (RibbonFacts.addPoints_from h ps _ _
              (RibbonFacts.ribbon_constructor deviceCoords worldOrigin width))
    as (b & n & E & _).
  exists b. split; [exact E|].
  apply (addPoints_invariant h
           (fun b => strokeWidth b = width /\
                     hd_error (screenPath b) = Some deviceCoords /\
                     spaced width (screenPath b) /\
                     incl (screenPath b) (deviceCoords :: ps))
           ps) with (b := constructor deviceCoords worldOrigin width);
    [| |exact E].
  - intros b0 p b1 Hin (Hw & Hhd & Hsp & Hincl) E1.
    destruct (addNewPoint_inv h _ _ _ E1)
      as (e & He & [[_ ->]|(Hgt & Hpath & _ & _ & Hw1 & _)]).
    + repeat split; assumption.
    + destruct (lastPoint_snoc _ _ He) as (init & Hinit).
      rewrite Hpath, Hw1, vec2_eta. rewrite Hw, vec2_eta in Hgt.
      split; [exact Hw|]. split; [|split].
      * rewrite Hinit in *. destruct init; exact Hhd.
      * rewrite Hinit in *. now apply spaced_snoc.
      * apply incl_app; [exact Hincl|].
        intros q [<-|[]]. now right.
  - simpl. rewrite vec2_eta. repeat split.
    intros q [<-|[]]. now left.
Qed.

(** [addNewPoint] only appends.  After a run of calls that returns, the
    accepted path, the vertex buffer and the index buffer are the old ones
    followed by new entries: two vertices and six indices for each accepted
    point, every new vertex at [z = -0.999], every accepted point one of
    the points passed in; the stroke width, the world origin, the position,
    the rotation and the mesh matrix are as before. *)
Theorem addPoints_appends (h : Host) (b : t) (ps : list Vector2) (b' : t) :
  addPoints h b ps = JS.Ok b' ->
  exists path' vs' is',
    screenPath b' = screenPath b ++ path' /\
    vertices b' = vertices b ++ vs' /\
    indices b' = indices b ++ is' /\
    incl path' ps /\
    List.length vs' = (2 * List.length path')%nat /\
    List.length is' = (6 * List.length path')%nat /\
    Forall (fun v => z v = (-0.999)) vs' /\
    strokeWidth b' = strokeWidth b /\ worldOrigin b' = worldOrigin b /\
    position b' = position b /\ rotation b' = rotation b /\
    mesh_matrix b' = mesh_matrix b.
Proof.
  apply (addPoints_invariant h
           (fun b' =>
              exists path' vs' is',
                screenPath b' = screenPath b ++ path' /\
                vertices b' = vertices b ++ vs' /\
                indices b' = indices b ++ is' /\
                incl path' ps /\
                List.length vs' = (2 * List.length path')%nat /\
                List.length is' = (6 * List.length path')%nat /\
                Forall (fun v => z v = (-0.999)) vs' /\
                strokeWidth b' = strokeWidth b /\
                worldOrigin b' = worldOrigin b /\
                position b' = position b /\ rotation b' = rotation b /\
                mesh_matrix b' = mesh_matrix b) ps).
  - intros b0 p b1 Hin
           (path' & vs' & is' & Hp & Hv & Hi & Hincl & Hlv & Hli & Hz
            & Hw & Ho & Hpos & Hrot & Hm) E1.
    destruct (addNewPoint_inv h _ _ _ E1)
      as (e & He & [[_ ->]|(_ & Hp1 & (v1 & v2 & Hv1 & Hz1 & Hz2) & Hi1
                             & Hw1 & Ho1 & Hpos1 & Hrot1 & Hm1)]).
    + exists path', vs', is'. repeat split; assumption.
    + exists (path' ++ [p]), (vs' ++ [v1; v2]), (is' ++ newIndices b0).
      rewrite Hp1, Hv1, Hi1, Hp, Hv, Hi, vec2_eta, <- !app_assoc.
      rewrite !length_app, Hlv, Hli.
      repeat split; try congruence.
      * apply incl_app; [exact Hincl|]. intros q [<-|[]]. exact Hin.
      * simpl. lia.
      * simpl. lia.
      * apply Forall_app. split; [exact Hz|]. now repeat constructor.
  - exists [], [], []. rewrite !app_nil_r. repeat split.
    + intros q [].
    + constructor.
Qed.

(** Two points added to a new billboard in the reference scene: the two
    start vertices and the empty index buffer are followed by four vertices
    and twelve indices. *)
Lemma addPoints_appends_run :
  match addPoints Scene.host (constructor (vec2 0 0) Vector3_zero 0.02)
                  [vec2 0.1 0; vec2 0.1 0.1] with
  | JS.Ok b' =>
      exists path' vs' is',
        screenPath b' = [vec2 0 0] ++ path' /\
        vertices b' = [vec3 0 0 (-0.999); vec3 0 0 (-0.999)] ++ vs' /\
        indices b' = [] ++ is' /\
        List.length vs' = 4%nat /\ List.length is' = 12%nat
  | JS.Throw _ => False
  end.
Proof.
  destruct (addPoints Scene.host (constructor (vec2 0 0) Vector3_zero 0.02)
                      [vec2 0.1 0; vec2 0.1 0.1]) as [b'|e] eqn:E.
  - destruct (addPoints_appends Scene.host _ _ _ E)
      as (path' & vs' & is' & Hp & Hv & Hi & Hincl & Hlv & Hli & _).
    exists path', vs', is'.
    split; [exact Hp|]. split; [exact Hv|]. split; [exact Hi|].
    assert (Hn : List.length path' = 2%nat).
    { apply (f_equal (@List.length _)) in Hp. rewrite length_app in Hp.
      revert Hp. vm_compute in E. injection E as <-. simpl. lia. }
    rewrite Hlv, Hli, Hn. split; reflexivity.
  - vm_compute in E. discriminate.
Defined.

(** *** The index buffer of the ribbon *)










(** *** Points that are not numbers *)

Lemma sqrt_NaN (a : float) : JS.NaN a -> JS.NaN (JS.Math_sqrt a).
Proof.
  unfold JS.NaN, JS.Math_sqrt. rewrite FloatAxioms.sqrt_spec. now intros ->.
Qed.

Lemma sub_NaN_r (a b : float) : JS.NaN b -> JS.NaN (a - b).
Proof.
  unfold JS.NaN. rewrite FloatAxioms.sub_spec. intros ->.
  apply FloatFacts.SFsub_nan_r.
Qed.

Lemma div_NaN_l (a b : float) : JS.NaN a -> JS.NaN (a / b).
Proof. unfold JS.NaN. rewrite FloatAxioms.div_spec. now intros ->. Qed.

Lemma ltb_NaN_l (a b : float) : JS.NaN a -> (a <? b) = false.
Proof.
  unfold JS.NaN. rewrite FloatAxioms.ltb_spec. unfold SFltb. now intros ->.
Qed.

Lemma ltb_NaN_r (a b : float) : JS.NaN b -> (a <? b) = false.
Proof.
  unfold JS.NaN. rewrite FloatAxioms.ltb_spec. unfold SFltb. intros ->.
  now destruct (Prim2SF a).
Qed.

(** A call in which a coordinate of the new point, a coordinate of the last
    accepted point or the stroke width is NaN accepts nothing: the test of
    line 244 compares with NaN and is false, and the billboard is returned
    as it was.  So a NaN never enters the path after the first point, and a
    ribbon started at a NaN point or with a NaN width stays at its first
    point. *)
Theorem addNewPoint_rejects_NaN (h : Host) (b : t) (p e : Vector2) :
  lastPoint b = Some e ->
  JS.NaN (x2 p) \/ JS.NaN (y2 p) \/ JS.NaN (x2 e) \/ JS.NaN (y2 e) \/
  JS.NaN (strokeWidth b) ->
  addNewPoint h b p = JS.Ok b.
Proof.
  intros He Hnan. unfold addNewPoint. rewrite He.
  assert (Hgt : JS.gt (Vector2_distanceTo (vec2 (x2 p) (y2 p)) e)
                      (strokeWidth b / 2) = false).
  { unfold JS.gt, Vector2_distanceTo, Vector2_distanceToSquared. cbv zeta.
    cbn [x2 y2].
    destruct Hnan as [H|[H|[H|[H|H]]]].
    - apply ltb_NaN_r, sqrt_NaN, FloatFacts.add_NaN_l, FloatFacts.mul_NaN_l.
      now apply FloatFacts.sub_NaN_l.
    - apply ltb_NaN_r, sqrt_NaN, FloatFacts.add_NaN_r, FloatFacts.mul_NaN_l.
      now apply FloatFacts.sub_NaN_l.
    - apply ltb_NaN_r, sqrt_NaN, FloatFacts.add_NaN_l, FloatFacts.mul_NaN_l.
      now apply sub_NaN_r.
    - apply ltb_NaN_r, sqrt_NaN, FloatFacts.add_NaN_r, FloatFacts.mul_NaN_l.
      now apply sub_NaN_r.
    - apply ltb_NaN_l. now apply div_NaN_l. }
  now rewrite Hgt.
Qed.

(** A new billboard at [(0, 0)] does not accept the point [(NaN, 0.5)]. *)
Lemma addNewPoint_rejects_NaN_run :
  addNewPoint Scene.host (constructor (vec2 0 0) Vector3_zero 0.02)
              (vec2 nan 0.5)
  = JS.Ok (constructor (vec2 0 0) Vector3_zero 0.02).
Proof.
  apply (addNewPoint_rejects_NaN Scene.host _ _ (vec2 0 0)).
  - reflexivity.
  - left. reflexivity.
Defined.

End StrokeFacts.

(** ** More on the projection modes *)

Module ModeFacts.

Import Billboard.
Local Open Scope float_scope.

(** The counts and the index bounds of a ribbon survive every projection
    mode: each mode keeps the accepted path and the index buffer and
    replaces the vertices one for one, so after it the ribbon of [n]
    accepted points still has [2n] vertices and every index still
    addresses one of them, and drawing can go on. *)
Theorem projection_keeps_ribbon (h : Host) (b : t) (n : nat)
        (camera : Camera h) (billboard sky : Object3D h) :
  ribbon b n ->
  ribbon (projectToNearPlane h b camera) n /\
  ribbon (projectToWorld h b camera) n /\
  ribbon (projectToBillboard h b billboard camera) n /\
  ribbon (projectToSky h b camera sky) n.
Proof.
  intros [Hp Hn Hv Hi Hb].
  split; [|split; [|split]].
  - constructor; assumption.
  - unfold projectToWorld. destruct (noVertex b).
    + constructor; assumption.
    + constructor; simpl; try assumption. now rewrite length_map.
  - unfold projectToBillboard. destruct (noVertex b).
    + constructor; assumption.
    + constructor; simpl; try assumption. now rewrite length_map.
  - constructor; simpl; try assumption. now rewrite length_map.
Qed.

(** A new billboard, a ribbon of one accepted point, after each mode in the
    reference scene. *)
Lemma projection_keeps_ribbon_run :
  ribbon (projectToNearPlane Scene.host
            (constructor (vec2 0 0) Vector3_zero 0.02) (vec3 0 0 10)) 1 /\
  ribbon (projectToWorld Scene.host
            (constructor (vec2 0 0) Vector3_zero 0.02) (vec3 0 0 10)) 1 /\
  ribbon (projectToBillboard Scene.host
            (constructor (vec2 0 0) Vector3_zero 0.02) tt (vec3 0 0 10)) 1 /\
  ribbon (projectToSky Scene.host
            (constructor (vec2 0 0) Vector3_zero 0.02) (vec3 0 0 10) tt) 1.
Proof.
  apply (projection_keeps_ribbon Scene.host).
  apply RibbonFacts.ribbon_constructor.
Defined.

(** [projectToNearPlane] writes only the placement of the billboard.  A
    second call replaces the first; the call commutes with [addNewPoint],
    so placing the ribbon before or after a point is added gives the same
    billboard; a sky projection that follows is the same as without it, and
    so is a billboard projection unless the ribbon has no vertex, when the
    guard of line 320 returns and the near-plane placement stays. *)
Theorem projectToNearPlane_composes (h : Host) (b : t) (p : Vector2)
        (camera1 camera2 : Camera h) (billboard sky : Object3D h) :
  projectToNearPlane h (projectToNearPlane h b camera1) camera2
  = projectToNearPlane h b camera2 /\
  addNewPoint h (projectToNearPlane h b camera1) p
  = (b' <- addNewPoint h b p ;; JS.Ok (projectToNearPlane h b' camera1)) /\
  projectToSky h (projectToNearPlane h b camera1) camera2 sky
  = projectToSky h b camera2 sky /\
  projectToBillboard h (projectToNearPlane h b camera1) billboard camera2
  = (if noVertex b then projectToNearPlane h b camera1
     else projectToBillboard h b billboard camera2).
Proof.
  split; [reflexivity|]. split; [|split].
  - unfold addNewPoint, lastPoint. cbn [screenPath strokeWidth projectToNearPlane].
    destruct (nth_error (screenPath b) (List.length (screenPath b) - 1))
      as [e|]; [|reflexivity].
    destruct (JS.gt _ _); reflexivity.
  - reflexivity.
  - unfold projectToBillboard, noVertex.
    cbn [vertices projectToNearPlane].
    destruct (List.length (vertices b) <? 1)%nat; reflexivity.
Qed.

(** *** What the sky and billboard modes store *)

Lemma map_nth_error_some {A B} (f : A -> B) (l : list A) (i : nat) (a : A) :
  nth_error l i = Some a -> nth_error (map f l) i = Some (f a).
Proof. intros H. now rewrite nth_error_map, H. Qed.

(** [projectToSky] on one vertex: it is replaced by the sky's local image
    of the point where its camera ray meets the sphere of radius 495 about
    the origin, and, when the ray misses the sphere or the sphere lies
    behind it, by the sky's local image of the zero point, the untouched
    target of [intersectSphere]; the vertex is never left where it was. *)
Theorem projectToSky_vertex (h : Host) (b : t) (camera : Camera h)
        (sky : Object3D h) (i : nat) (v : Vector3) :
  nth_error (vertices b) i = Some v ->
  let cast := fst (intersectSphere (vertexRay h camera v) skySphere
                                   Vector3_zero) in
  (forall hit, cast = Some hit ->
     nth_error (vertices (projectToSky h b camera sky)) i
     = Some (worldToLocal h sky hit)) /\
  (cast = None ->
     nth_error (vertices (projectToSky h b camera sky)) i
     = Some (worldToLocal h sky Vector3_zero)).
Proof.
  intros Hv. cbv zeta. unfold projectToSky. cbn [vertices].
  rewrite (map_nth_error_some _ _ _ _ Hv). rewrite StrokeFacts.vec3_eta.
  unfold vertexRay, skySphere, intersectSphere. cbv zeta.
  destruct (JS.gt _ _); cbn [fst snd].
  - split; [discriminate|reflexivity].
  - destruct (JS.lt _ 0); cbn [fst snd].
    + split; [discriminate|reflexivity].
    + destruct (JS.lt _ 0); cbn [fst snd];
        (split; [intros hit [= <-]; reflexivity|discriminate]).
Qed.

(** In the reference scene, from a camera at [(1000, 0, 0)] that looks
    along [-Z], the ray of the first vertex of a new billboard passes the
    sky sphere at distance 1000 and misses it: the vertex becomes the zero
    point. *)
Lemma projectToSky_vertex_run :
  nth_error (vertices (projectToSky Scene.host
                         (constructor (vec2 0 0) Vector3_zero 0.02)
                         (vec3 1000 0 0) tt)) 0
  = Some (worldToLocal Scene.host tt Vector3_zero).
Proof.
  apply (proj2 (projectToSky_vertex Scene.host
                  (constructor (vec2 0 0) Vector3_zero 0.02)
                  (vec3 1000 0 0) tt 0 (vec3 0 0 (-0.999)) eq_refl)).
  vm_compute. reflexivity.
Defined.

(** [projectToBillboard] on one vertex: it is replaced by the other
    billboard's local image of the point where its camera ray meets the
    plane through [worldOrigin] that faces the camera, or of the zero point
    when the ray does not meet that plane; the position and the rotation
    of the billboard and its mesh matrix are reset. *)
Theorem projectToBillboard_vertex (h : Host) (b : t) (billboard : Object3D h)
        (camera : Camera h) (i : nat) (v : Vector3) :
  nth_error (vertices b) i = Some v ->
  let b' := projectToBillboard h b billboard camera in
  let plane := setFromNormalAndCoplanarPoint (forward h camera) (worldOrigin b) in
  nth_error (vertices b') i
  = Some (worldToLocal h billboard (hitOrZero (vertexRay h camera v) plane)) /\
  position b' = vec3 0 0 0 /\ rotation b' = euler 0 0 0 /\
  mesh_matrix b' = Matrix4_identity.
Proof.
  intros Hv. cbv zeta. unfold projectToBillboard, noVertex.
  destruct (List.length (vertices b) <? 1)%nat eqn:E.
  - apply Nat.ltb_lt in E. destruct (vertices b); [|simpl in E; lia].
    destruct i; discriminate.
  - cbn [vertices position rotation mesh_matrix].
    rewrite (map_nth_error_some _ _ _ _ Hv), StrokeFacts.vec3_eta.
    repeat split. do 2 f_equal.
    unfold castToPlane, hitOrZero, vertexRay, intersectPlane, projectionPlane,
      forward.
    destruct (distanceToPlane _ _); reflexivity.
Qed.

(** A new billboard anchored at the origin, seen from [(0, 0, 10)] in the
    reference scene: its first vertex, at device point [(0.5, 0.25)], is
    stored as the point [(0.5, 0.25, 0)] of the plane [z = 0]. *)
Lemma projectToBillboard_vertex_run :
  nth_error (vertices (projectToBillboard Scene.host
                         (constructor (vec2 0.5 0.25) (vec3 0 0 0) 0.02)
                         tt (vec3 0 0 10))) 0
  = Some (vec3 0.5 0.25 0).
Proof.
  rewrite (proj1 (projectToBillboard_vertex Scene.host
                    (constructor (vec2 0.5 0.25) (vec3 0 0 0) 0.02)
                    tt (vec3 0 0 10) 0 (vec3 0.5 0.25 (-0.999)) eq_refl)).
  vm_compute. reflexivity.
Defined.

End ModeFacts.
